(** * abce.messenger: the agent mailbox, its clearing pass and its router

    A shallow embedding of [abce/messenger.py].  Python objects become
    records, dictionaries become finite maps, and a method of [Messenger]
    becomes a function from the state before the call to an [outcome]: the
    returned value or the raised exception, each with the state the call
    left behind (Python keeps the mutations made before a [raise]). *)

From stdpp Require Import gmap strings list fin_maps pretty.

Set Warnings "-register-all".

Local Open Scope string_scope.
Local Open Scope list_scope.
Local Open Scope Z_scope.

(** ** Exceptions and outcomes *)

Inductive exn : Type :=
  | KeyError
  | AttributeError
  | TypeError
  | IndexError
  | ZeroDivisionError
  | Exception (text : string)
  (* a reference to an object that is not in the store; Python cannot
     produce one, the store model needs a result for it *)
  | DanglingRef.

Inductive outcome (S A : Type) : Type :=
  | Ret (a : A) (s : S)
  | Raise (e : exn) (s : S).
Arguments Ret {S A} a s.
Arguments Raise {S A} e s.

Definition M (S A : Type) : Type := S → outcome S A.

Definition mret {S A} (a : A) : M S A := λ s, Ret a s.
Definition mraise {S A} (e : exn) : M S A := λ s, Raise e s.
Definition mbind {S A B} (c : M S A) (k : A → M S B) : M S B :=
  λ s, match c s with
       | Ret a s' => k a s'
       | Raise e s' => Raise e s'
       end.
Definition mget {S} : M S S := λ s, Ret s s.
Definition mmodify {S} (f : S → S) : M S unit := λ s, Ret tt (f s).

Notation "'do' x <- c ; k" := (mbind c (λ x, k))
  (at level 10, x name, c at level 100, k at level 200, only parsing).
Notation "'run' c ; k" := (mbind c (λ _, k))
  (at level 10, c at level 100, k at level 200, only parsing).

(** An attribute or item that may be missing: [None] raises [e]. *)
Definition orraise {S A} (e : exn) (o : option A) : M S A :=
  match o with
  | Some a => mret a
  | None => mraise e
  end.

(** Run a computation on a component of the state. *)
Definition zoom {S T A} (proj : S → T) (upd : T → S → S) (c : M T A) : M S A :=
  λ s, match c (proj s) with
       | Ret a t => Ret a (upd t s)
       | Raise e t => Raise e (upd t s)
       end.

(** [for x in xs: body(x)] over a list that the body does not change. *)
Fixpoint for_each {S X} (body : X → M S unit) (xs : list X) : M S unit :=
  match xs with
  | [] => mret tt
  | x :: rest => run body x; for_each body rest
  end.

(** ** Data model *)

(** An agent's name is the tuple [(group, id)]. *)
Definition name : Type := string * Z.

(** Message contents.  The layer never inspects [content] except through
    [Message.__getitem__]; the model covers [None], integers, strings and
    tuples.  Numbers are Python integers. *)
Inductive value : Type :=
  | VNone
  | VInt (n : Z)
  | VStr (s : string)
  | VTuple (items : list value).

(** [class Message], with [__slots__ = sender, receiver, topic, content]. *)
Record Message : Type := mkMessage {
  sender : name;
  receiver : name;
  topic : string;
  content : value
}.

(** Modelled from the spec: the offer class of the trade module, which is
    not part of the messaging file; only the attributes read here. *)
Record Offer : Type := mkOffer {
  offer_good : string;
  offer_id : Z;
  offer_made : Z
}.

(** Modelled from the spec: the contract class of the contracting module,
    which is not part of the messaging file; only the attributes read
    here.  [delivered] and [paid] are the lists of rounds.  A contract
    is a value here: two tables never share one contract object. *)
Record Contract : Type := mkContract {
  contract_id : Z;
  contract_good : string;
  pay_group : string;
  pay_id : Z;
  quantity : Z;
  price : Z;
  delivered : list Z;
  paid : list Z
}.

(** What an inbox entry can carry. *)
Inductive payload : Type :=
  | PMessage (m : Message)
  | PTuple (items : list value)
  | POffer (o : Offer)
  | PContract (c : Contract).

Definition envelope : Type := string * payload.

(** Attribute reads; [None] is Python's [AttributeError]. *)
Definition attr_good (p : payload) : option string :=
  match p with
  | POffer o => Some (offer_good o)
  | PContract c => Some (contract_good c)
  | _ => None
  end.

Definition attr_id (p : payload) : option Z :=
  match p with
  | POffer o => Some (offer_id o)
  | PContract c => Some (contract_id c)
  | _ => None
  end.

Definition attr_contract (p : payload) : option Contract :=
  match p with
  | PContract c => Some c
  | _ => None
  end.

(** [seq[i]] for a constant index [i >= 0]. *)
Definition value_item (v : value) (i : nat) : exn + value :=
  match v with
  | VTuple items =>
      match items !! i with Some x => inr x | None => inl IndexError end
  | VStr s =>
      match String.get i s with
      | Some c => inr (VStr (String c EmptyString))
      | None => inl IndexError
      end
  | _ => inl TypeError
  end.

(** [msg[i]]: a tuple is indexed directly, a [Message] forwards to its
    content ([Message.__getitem__]), the other classes have no
    [__getitem__]. *)
Definition item (p : payload) (i : nat) : exn + value :=
  match p with
  | PTuple items =>
      match items !! i with Some x => inr x | None => inl IndexError end
  | PMessage m => value_item (content m) i
  | _ => inl TypeError
  end.

Definition lift_sum {S A} (r : exn + A) : M S A :=
  match r with
  | inr a => mret a
  | inl e => mraise e
  end.

(** [v == 'literal']. *)
Definition value_is (v : value) (lit : string) : bool :=
  match v with
  | VStr s => String.eqb s lit
  | _ => false
  end.

(** The state of the classes a [Messenger] is mixed with: identity, round
    counter, inventory, offers and contracts.

    Modelled from the spec: the containers are declared outside the
    messaging file.  The two-level tables are [defaultdict(dict)], the
    received contract offers [defaultdict(list)], the inventory maps a
    good to an amount and reads 0 for a good it does not hold; quotes,
    made contract offers and given offers are plain dictionaries. *)
Record Market : Type := mkMarket {
  group : string;
  id : Z;
  round : Z;
  trade_logging : Z;
  inventory : gmap string Z;
  given_offers : gmap Z Offer;
  open_offers_buy : gmap string (gmap Z payload);
  open_offers_sell : gmap string (gmap Z payload);
  quotes : gmap Z payload;
  contract_offers : gmap string (list payload);
  contract_offers_made : gmap Z Contract;
  contracts_pay : gmap string (gmap Z Contract);
  contracts_deliver : gmap string (gmap Z Contract)
}.

(** [self._out]: a list in direct mode, a [defaultdict(list)] keyed by
    partition in multiprocessing mode. *)
Inductive outbox : Type :=
  | OutList (entries : list (name * envelope))
  | OutBuckets (buckets : gmap Z (list (name * envelope))).

Record Agent : Type := mkAgent {
  market : Market;
  msgs : gmap string (list payload);
  inbox : list envelope;
  out : outbox;
  processes : Z;
  check_every_round_for_lost_messages : bool
}.

(** Modelled from the spec: [self.name] is set outside the messaging
    file; it is the identity [(group, id)] of the agent. *)
Definition agent_name (a : Agent) : name := (group (market a), id (market a)).

(** [__init__]: no queues, an empty inbox, an empty list outbox, and the
    audit flag taken from the simulation parameters.  [super] is the
    state the other classes build; [_processes] is assigned by the
    simulation, not by [__init__]. *)
Definition __init__ (super : Market) (check_unchecked_msgs : bool) (n : Z) : Agent :=
  mkAgent super ∅ [] (OutList []) n check_unchecked_msgs.

(** Field updates. *)
Definition set_market (m : Market) (a : Agent) : Agent :=
  mkAgent m (msgs a) (inbox a) (out a) (processes a)
          (check_every_round_for_lost_messages a).
Definition set_msgs (q : gmap string (list payload)) (a : Agent) : Agent :=
  mkAgent (market a) q (inbox a) (out a) (processes a)
          (check_every_round_for_lost_messages a).
Definition set_inbox (l : list envelope) (a : Agent) : Agent :=
  mkAgent (market a) (msgs a) l (out a) (processes a)
          (check_every_round_for_lost_messages a).
Definition set_out (o : outbox) (a : Agent) : Agent :=
  mkAgent (market a) (msgs a) (inbox a) o (processes a)
          (check_every_round_for_lost_messages a).

Definition set_inventory (v : gmap string Z) (m : Market) : Market :=
  mkMarket (group m) (id m) (round m) (trade_logging m) v (given_offers m)
    (open_offers_buy m) (open_offers_sell m) (quotes m) (contract_offers m)
    (contract_offers_made m) (contracts_pay m) (contracts_deliver m).
Definition set_open_offers_buy (v : gmap string (gmap Z payload)) (m : Market) : Market :=
  mkMarket (group m) (id m) (round m) (trade_logging m) (inventory m) (given_offers m)
    v (open_offers_sell m) (quotes m) (contract_offers m)
    (contract_offers_made m) (contracts_pay m) (contracts_deliver m).
Definition set_open_offers_sell (v : gmap string (gmap Z payload)) (m : Market) : Market :=
  mkMarket (group m) (id m) (round m) (trade_logging m) (inventory m) (given_offers m)
    (open_offers_buy m) v (quotes m) (contract_offers m)
    (contract_offers_made m) (contracts_pay m) (contracts_deliver m).
Definition set_quotes (v : gmap Z payload) (m : Market) : Market :=
  mkMarket (group m) (id m) (round m) (trade_logging m) (inventory m) (given_offers m)
    (open_offers_buy m) (open_offers_sell m) v (contract_offers m)
    (contract_offers_made m) (contracts_pay m) (contracts_deliver m).
Definition set_contract_offers (v : gmap string (list payload)) (m : Market) : Market :=
  mkMarket (group m) (id m) (round m) (trade_logging m) (inventory m) (given_offers m)
    (open_offers_buy m) (open_offers_sell m) (quotes m) v
    (contract_offers_made m) (contracts_pay m) (contracts_deliver m).
Definition set_contract_offers_made (v : gmap Z Contract) (m : Market) : Market :=
  mkMarket (group m) (id m) (round m) (trade_logging m) (inventory m) (given_offers m)
    (open_offers_buy m) (open_offers_sell m) (quotes m) (contract_offers m)
    v (contracts_pay m) (contracts_deliver m).
Definition set_contracts_pay (v : gmap string (gmap Z Contract)) (m : Market) : Market :=
  mkMarket (group m) (id m) (round m) (trade_logging m) (inventory m) (given_offers m)
    (open_offers_buy m) (open_offers_sell m) (quotes m) (contract_offers m)
    (contract_offers_made m) v (contracts_deliver m).
Definition set_contracts_deliver (v : gmap string (gmap Z Contract)) (m : Market) : Market :=
  mkMarket (group m) (id m) (round m) (trade_logging m) (inventory m) (given_offers m)
    (open_offers_buy m) (open_offers_sell m) (quotes m) (contract_offers m)
    (contract_offers_made m) (contracts_pay m) v.

(** ** Container operations *)

(** Reading [table[key]] on a [defaultdict] stores the default under a
    missing key. *)
Definition dd_touch {K V} `{Countable K} (key : K) (dflt : V) (t : gmap K V) : gmap K V :=
  match t !! key with
  | Some _ => t
  | None => <[key := dflt]> t
  end.

(** [table[good][i] = v] on a [defaultdict(dict)]. *)
Definition table_set {V} (good : string) (i : Z) (v : V)
    (t : gmap string (gmap Z V)) : gmap string (gmap Z V) :=
  <[good := <[i := v]> (default ∅ (t !! good))]> t.

(** [table[good][i]], after [table[good]] has been read. *)
Definition table_get {V} (good : string) (i : Z)
    (t : gmap string (gmap Z V)) : option V :=
  default ∅ (t !! good) !! i.

(** [del table[good][i]], after [table[good]] has been read. *)
Definition table_del {V} (good : string) (i : Z)
    (t : gmap string (gmap Z V)) : gmap string (gmap Z V) :=
  <[good := delete i (default ∅ (t !! good))]> t.

(** [inventory[good] += amount]. *)
Definition credit (good : string) (amount : Z) (inv : gmap string Z) : gmap string Z :=
  <[good := default 0 (inv !! good) + amount]> inv.

(** [queues[key].append(x)] on a [defaultdict(list)], and
    [queues.setdefault(key, []).append(x)] on a dictionary. *)
Definition queue_append {K X} `{Countable K} (key : K) (x : X)
    (q : gmap K (list X)) : gmap K (list X) :=
  <[key := default [] (q !! key) ++ [x]]> q.

Definition append_delivered (r : Z) (c : Contract) : Contract :=
  mkContract (contract_id c) (contract_good c) (pay_group c) (pay_id c)
    (quantity c) (price c) (delivered c ++ [r]) (paid c).

Definition append_paid (r : Z) (c : Contract) : Contract :=
  mkContract (contract_id c) (contract_good c) (pay_group c) (pay_id c)
    (quantity c) (price c) (delivered c) (paid c ++ [r]).

(** Keys taken out of a tuple.  Goods are strings and ids integers in
    every table, so a key of another type is never present. *)
Definition as_good (v : value) : option string :=
  match v with VStr s => Some s | _ => None end.
Definition as_id (v : value) : option Z :=
  match v with VInt n => Some n | _ => None end.

(** ** A small economy

    Concrete collaborators and agents on which the methods are run. *)

(** The mixed-in methods: accepting returns the payload as the offer,
    rejecting and logging do nothing. *)
Definition sample_receive_accept (msg : payload) : M Market payload := mret msg.
Definition sample_silent (msg : payload) : M Market unit := mret tt.

(** A generator that counts its calls; a shuffle reverses the list. *)
Definition sample_shuffle (l : list payload) (g : nat) : list payload * nat :=
  (reverse l, S g).

Definition sample_hash (to : name) : Z :=
  Z.of_nat (String.length to.1) * 31 + to.2.

Definition empty_market (grp : string) (i r : Z) : Market :=
  mkMarket grp i r 0 ∅ ∅ ∅ ∅ ∅ ∅ ∅ ∅ ∅.

(** An agent as [__init__] builds it, with the audit flag on. *)
Definition fresh_agent (grp : string) (i r : Z) : Agent :=
  __init__ (empty_market grp i r) true 1.

Definition firm : Agent := fresh_agent "firm" 0 3.
Definition household : Agent := fresh_agent "household" 1 3.

Definition sample_registry : gmap name nat :=
  <[("firm", 0) := 0%nat]> (<[("household", 1) := 1%nat]> ∅).

Definition sample_store : gmap nat Agent :=
  <[0%nat := firm]> (<[1%nat := household]> ∅).

(** The firm greets the household twice under ['m'] and sends it a
    quote request; the household writes to itself and to the firm. *)
Definition sample_plan : list (nat * list (name * string * value)) :=
  [ (0%nat, [ (("household", 1), "m", VStr "hello");
              (("household", 1), "quote_sell", VTuple [VStr "BRD"; VInt 5]);
              (("household", 1), "m", VStr "hello") ]);
    (1%nat, [ (("household", 1), "m", VStr "note to self");
              (("firm", 0), "m", VStr "good morning") ]) ].

Definition hello : payload :=
  PMessage (mkMessage ("firm", 0) ("household", 1) "m" (VStr "hello")).

(** A message of the round before that the household never retrieved. *)
Definition old_greeting : payload :=
  PMessage (mkMessage ("firm", 0) ("household", 1) "m" (VStr "yesterday")).

Definition household_with_backlog : Agent :=
  set_msgs (<["m" := [old_greeting]]> ∅) household.

Definition backlog_store : gmap nat Agent :=
  <[0%nat := firm]> (<[1%nat := household_with_backlog]> ∅).

Definition one_greeting : list (nat * list (name * string * value)) :=
  [ (0%nat, [ (("household", 1), "m", VStr "hello") ]) ].

(** A contract for bread that the household pays and the firm delivers. *)
Definition bread_contract : Contract :=
  mkContract 7 "BRD" "household" 1 5 2 [] [].

(** The firm has offered the contract and waits for the answer. *)
Definition firm_offering : Agent :=
  set_market (set_contract_offers_made (<[7 := bread_contract]> ∅) (market firm)) firm.

Definition household_offering : Agent :=
  set_market (set_contract_offers_made (<[7 := bread_contract]> ∅) (market household))
    household.

(** Both sides after the contract was accepted. *)
Definition firm_delivering : Agent :=
  set_market (set_contracts_deliver (<["BRD" := <[7 := bread_contract]> ∅]> ∅)
                (market firm)) firm.

Definition household_paying : Agent :=
  set_market (set_contracts_pay (<["BRD" := <[7 := bread_contract]> ∅]> ∅)
                (market household)) household.

(** What [send(('household', 1), '_ac', 7)] of the firm delivers. *)
Definition stray_accept : envelope :=
  ("_ac", PMessage (mkMessage ("firm", 0) ("household", 1) "_ac" (VInt 7))).

Definition household_confused : Agent :=
  set_inbox [stray_accept] household.

(** The firm in multiprocessing mode with four workers. *)
Definition firm_parallel : Agent :=
  mkAgent (market firm) ∅ [] (OutBuckets ∅) 4 true.

(** The household in multiprocessing mode, in another worker. *)
Definition household_parallel : Agent :=
  mkAgent (market household) ∅ [] (OutBuckets ∅) 4 true.

(** Stand-ins for the built-in hash in worker interpreters started with
    different seeds (CPython derives the hash of a [str] from a seed it
    draws per interpreter): the same names, hashed differently. *)
Definition seeded_hash (seed : Z) (to : name) : Z :=
  sample_hash to + seed * 1000003.

(** A quote request of the firm, and the household holding it next to
    two greetings under another topic. *)
Definition quote_request : payload :=
  PMessage (mkMessage ("firm", 0) ("household", 1) "quote_sell"
              (VTuple [VStr "BRD"; VInt 5])).

Definition household_two_topics : Agent :=
  set_msgs (<["quote_sell" := [quote_request]]> (<["m" := [old_greeting; hello]]> ∅))
    household.

(** The household with two greetings in its inbox. *)
Definition household_greeted : Agent :=
  set_inbox [("m", hello); ("m", old_greeting)] household.

(** The firm with an outbox for the household and for itself, and with
    an outbox that names a bank nobody registered. *)
Definition firm_sending : Agent :=
  set_out (OutList [(("household", 1), ("m", hello));
                    (("firm", 0), ("memo", old_greeting));
                    (("household", 1), ("quote_sell", quote_request))]) firm.

Definition firm_misaddressing : Agent :=
  set_out (OutList [(("household", 1), ("m", hello));
                    (("bank", 9), ("m", old_greeting));
                    (("household", 1), ("quote_sell", quote_request))]) firm.

Definition sending_store : gmap nat Agent :=
  <[0%nat := firm_sending]> (<[1%nat := household]> ∅).

Definition misaddressing_store : gmap nat Agent :=
  <[0%nat := firm_misaddressing]> (<[1%nat := household]> ∅).

(** Entries for three receivers in multiprocessing mode. *)
Definition parallel_entries : list (name * envelope) :=
  [(("household", 1), ("m", hello));
   (("firm", 0), ("memo", old_greeting));
   (("household", 1), ("quote_sell", quote_request));
   (("bank", 9), ("m", hello))].

(** An offer for bread, and the household having given it one round
    before the current one. *)
Definition bread_offer : Offer := mkOffer "BRD" 11 2.

Definition household_waiting : Agent :=
  set_market
    (mkMarket "household" 1 3 0 ∅ (<[11 := bread_offer]> ∅) ∅ ∅ ∅ ∅ ∅ ∅ ∅)
    household.

(** A free transfer wrapped by [send], and a cancel wrapped by [send]. *)
Definition gift_message : Message :=
  mkMessage ("firm", 0) ("household", 1) "_g" (VTuple [VStr "BRD"; VInt 4]).

Definition cancel_message : Message :=
  mkMessage ("firm", 0) ("household", 1) "!d" (VTuple [VStr "r"; VStr "BRD"; VInt 7]).

(** ** The object store *)

(** Agents are objects in a store; the registry [agents] maps a name to
    the object it denotes.  The sender is usually registered itself, and
    several names may denote one object. *)
Abbreviation loc := nat (only parsing).
Abbreviation store := (gmap nat Agent) (only parsing).
Abbreviation registry := (gmap name nat) (only parsing).

(** ** The methods of [Messenger] *)

Section Messenger.

Local Set Default Proof Using "Type".

(** Methods of the classes [Messenger] is mixed with; they act on the
    market state and leave the mailbox alone. *)
Variable _receive_accept : payload → M Market payload.
Variable _receive_reject : payload → M Market unit.
Variable _log_receive_accept_group : payload → M Market unit.
Variable _log_receive_accept_agent : payload → M Market unit.

(** [random.shuffle] with the state of the generator made explicit. *)
Variable rng : Type.
Variable shuffle : list payload → rng → list payload * rng.
Hypothesis shuffle_perm : ∀ l g, (shuffle l g).1 ≡ₚ l.

(** The built-in [hash] of the interpreter that runs the call, on
    receiver names.  CPython seeds the hash of a [str] once per
    interpreter, so the workers of one run need not share this function:
    each interpreter is an instance of its own. *)
Variable hash : name → Z.

(** [_send]: queue an entry in the outbox (direct mode).  A
    [defaultdict] has no [append]. *)
Definition _send (to : name) (typ : string) (msg : payload) : M Agent unit :=
  λ a, match out a with
       | OutList entries => Ret tt (set_out (OutList (entries ++ [(to, (typ, msg))])) a)
       | OutBuckets _ => Raise AttributeError a
       end.

(** [send]: build the [Message] and hand it to [_send]. *)
Definition send (to : name) (topic : string) (content : value) : M Agent unit :=
  λ a, let msg := mkMessage (agent_name a) to topic content in
       _send to topic (PMessage msg) a.

(** [get_messages]: shuffle the queue of the topic in place, or store an
    empty queue when the lookup raises [KeyError]; then pop the topic.
    The caller passes the topic; the source defaults it to ['m']. *)
Definition get_messages (topic : string) : M (Agent * rng) (list payload) :=
  λ '(a, g),
    let '(a1, g1) :=
      match msgs a !! topic with
      | Some l =>
          let '(l', g') := shuffle l g in
          (set_msgs (<[topic := l']> (msgs a)) a, g')
      | None => (set_msgs (<[topic := []]> (msgs a)) a, g)
      end in
    match msgs a1 !! topic with
    | Some l => Ret l (set_msgs (delete topic (msgs a1)) a1, g1)
    | None => Raise KeyError (a1, g1)
    end.

(** The branches of [_do_message_clearing] that touch the market state. *)

(** ['!b'] and ['!s']: [table[msg.good][msg.id] = msg]. *)
Definition clear_offer
    (get : Market → gmap string (gmap Z payload))
    (set : gmap string (gmap Z payload) → Market → Market)
    (msg : payload) : M Market unit :=
  do good <- orraise AttributeError (attr_good msg);
  run mmodify (λ m, set (dd_touch good ∅ (get m)) m);
  do i <- orraise AttributeError (attr_id msg);
  mmodify (λ m, set (table_set good i msg (get m)) m).

(** ['_p']: [_receive_accept], then the log chosen by [trade_logging]. *)
Definition clear_accept (msg : payload) : M Market unit :=
  do offer <- _receive_accept msg;
  do m <- mget;
  if trade_logging m =? 2 then _log_receive_accept_group offer
  else if trade_logging m =? 1 then _log_receive_accept_agent offer
  else mret tt.

(** ['_g']: [self._inventory.haves[msg[0]] += msg[1]]. *)
Definition clear_free_good (msg : payload) : M Market unit :=
  do k <- lift_sum (item msg 0);
  do good <- orraise TypeError (as_good k);
  run mmodify (λ m, set_inventory (dd_touch good 0 (inventory m)) m);
  do v <- lift_sum (item msg 1);
  do amount <- orraise TypeError (as_id v);
  mmodify (λ m, set_inventory (credit good amount (inventory m)) m).

(** ['_q']: [self._quotes[msg.id] = msg]. *)
Definition clear_quote (msg : payload) : M Market unit :=
  do i <- orraise AttributeError (attr_id msg);
  mmodify (λ m, set_quotes (<[i := msg]> (quotes m)) m).

(** ['!o']: [self._contract_offers[msg.good].append(msg)]. *)
Definition clear_contract_offer (msg : payload) : M Market unit :=
  do good <- orraise AttributeError (attr_good msg);
  mmodify (λ m, set_contract_offers (queue_append good msg (contract_offers m)) m).

(** [c.pay_group == self.group and c.pay_id == self.id]. *)
Definition is_payer (c : Contract) (m : Market) : bool :=
  String.eqb (pay_group c) (group m) && (pay_id c =? id m).

(** ['_ac']: pop the made offer and file it by the payer test. *)
Definition clear_contract_accept (msg : payload) : M Market unit :=
  do i <- orraise AttributeError (attr_id msg);
  do m <- mget;
  do contract <- orraise KeyError (contract_offers_made m !! i);
  run mmodify (set_contract_offers_made (delete i (contract_offers_made m)));
  if is_payer contract m then
    mmodify (λ m, set_contracts_pay
      (table_set (contract_good contract) (contract_id contract) contract
                 (contracts_pay m)) m)
  else
    mmodify (λ m, set_contracts_deliver
      (table_set (contract_good contract) (contract_id contract) contract
                 (contracts_deliver m)) m).

(** ['_dp']: credit the inventory and log the round in the contract of
    the track that the payer test selects. *)
Definition clear_contract_event (msg : payload) : M Market unit :=
  do c <- orraise AttributeError (attr_contract msg);
  do m <- mget;
  if is_payer c m then
    run mmodify (λ m, set_inventory
          (credit (contract_good c) (quantity c) (inventory m)) m);
    run mmodify (λ m, set_contracts_pay
          (dd_touch (contract_good c) ∅ (contracts_pay m)) m);
    do m1 <- mget;
    do stored <- orraise KeyError
          (table_get (contract_good c) (contract_id c) (contracts_pay m1));
    mmodify (λ m, set_contracts_pay
      (table_set (contract_good c) (contract_id c)
                 (append_delivered (round m) stored) (contracts_pay m)) m)
  else
    run mmodify (λ m, set_inventory
          (credit "money" (quantity c * price c) (inventory m)) m);
    run mmodify (λ m, set_contracts_deliver
          (dd_touch (contract_good c) ∅ (contracts_deliver m)) m);
    do m1 <- mget;
    do stored <- orraise KeyError
          (table_get (contract_good c) (contract_id c) (contracts_deliver m1));
    mmodify (λ m, set_contracts_deliver
      (table_set (contract_good c) (contract_id c)
                 (append_paid (round m) stored) (contracts_deliver m)) m).

(** [del table[msg[1]][msg[2]]]. *)
Definition delete_contract
    (get : Market → gmap string (gmap Z Contract))
    (set : gmap string (gmap Z Contract) → Market → Market)
    (msg : payload) : M Market unit :=
  do k <- lift_sum (item msg 1);
  run match as_good k with
      | Some good => mmodify (λ m, set (dd_touch good ∅ (get m)) m)
      | None => mret tt
      end;
  do v <- lift_sum (item msg 2);
  do good <- orraise KeyError (as_good k);
  do i <- orraise KeyError (as_id v);
  do m <- mget;
  do _gone <- orraise KeyError (table_get good i (get m));
  mmodify (λ m, set (table_del good i (get m)) m).

(** ['!d']: two separate tests of [msg[0]], against ['r'] and ['d']. *)
Definition clear_contract_cancel (msg : payload) : M Market unit :=
  do d <- lift_sum (item msg 0);
  run (if value_is d "r"
       then delete_contract contracts_pay set_contracts_pay msg
       else mret tt);
  do d' <- lift_sum (item msg 0);
  if value_is d' "d"
  then delete_contract contracts_deliver set_contracts_deliver msg
  else mret tt.

Definition on_market {A} (c : M Market A) : M Agent A :=
  zoom market set_market c.

(** The body of the loop of [_do_message_clearing]. *)
Definition dispatch (entry : envelope) : M Agent unit :=
  let '(typ, msg) := entry in
  if String.eqb typ "!b" then
    on_market (clear_offer open_offers_buy set_open_offers_buy msg)
  else if String.eqb typ "!s" then
    on_market (clear_offer open_offers_sell set_open_offers_sell msg)
  else if String.eqb typ "_p" then on_market (clear_accept msg)
  else if String.eqb typ "_r" then on_market (_receive_reject msg)
  else if String.eqb typ "_g" then on_market (clear_free_good msg)
  else if String.eqb typ "_q" then on_market (clear_quote msg)
  else if String.eqb typ "!o" then on_market (clear_contract_offer msg)
  else if String.eqb typ "_ac" then on_market (clear_contract_accept msg)
  else if String.eqb typ "_dp" then on_market (clear_contract_event msg)
  else if String.eqb typ "!d" then on_market (clear_contract_cancel msg)
  else mmodify (λ a, set_msgs (queue_append typ msg (msgs a)) a).

(** [_do_message_clearing].  No branch assigns to [self.inbox], so the
    loop runs over the entries the inbox holds when it starts. *)
Definition _do_message_clearing : M Agent unit :=
  do a <- mget;
  run for_each dispatch (inbox a);
  mmodify (set_inbox []).

(** The kind codes with a branch of their own. *)
Definition reserved (typ : string) : bool :=
  String.eqb typ "!b" || String.eqb typ "!s" || String.eqb typ "_p"
  || String.eqb typ "_r" || String.eqb typ "_g" || String.eqb typ "_q"
  || String.eqb typ "!o" || String.eqb typ "_ac" || String.eqb typ "_dp"
  || String.eqb typ "!d".

(** *** The router *)


(** Call a method on the object at [l]. *)
Definition at_loc {A} (l : loc) (c : M Agent A) : M store A :=
  λ h, match h !! l with
       | Some a =>
           match c a with
           | Ret x a' => Ret x (<[l := a']> h)
           | Raise e a' => Raise e (<[l := a']> h)
           end
       | None => Raise DanglingRef h
       end.

(** [agents[name].inbox.append(envelope)]. *)
Definition post_entry (agents : registry) (entry : name * envelope) : M store unit :=
  let '(to, env) := entry in
  do l <- orraise KeyError (agents !! to);
  at_loc l (mmodify (λ b, set_inbox (inbox b ++ [env]) b)).

(** [_post_messages].  Iterating a [defaultdict] yields its integer
    keys, which do not unpack into [name, envelope]. *)
Definition _post_messages (self : loc) (agents : registry) : M store unit :=
  do a <- at_loc self mget;
  match out a with
  | OutList entries =>
      run for_each (post_entry agents) entries;
      at_loc self (mmodify (set_out (OutList [])))
  | OutBuckets b =>
      if decide (b = ∅)
      then at_loc self (mmodify (set_out (OutBuckets ∅)))
      else mraise TypeError
  end.

(** [_post_messages_multiprocessing]: hand over the outbox and start a
    fresh [defaultdict(list)]. *)
Definition _post_messages_multiprocessing (num_processes : Z) : M Agent outbox :=
  λ a, Ret (out a) (set_out (OutBuckets ∅) a).

(** [hash(receiver) % self._processes]; Python's [%] takes the sign of
    the divisor, like [Z.modulo]. *)
Definition partition (to : name) (n : Z) : Z := hash to `mod` n.

(** [_send_multiprocessing].  On a list outbox the subscript is a list
    index: out of range it raises [IndexError], in range it yields an
    entry tuple, which has no [append]. *)
Definition _send_multiprocessing (to : name) (typ : string) (msg : payload)
    : M Agent unit :=
  λ a, if processes a =? 0 then Raise ZeroDivisionError a
       else
         let k := partition to (processes a) in
         match out a with
         | OutBuckets b =>
             Ret tt (set_out (OutBuckets (queue_append k (to, (typ, msg)) b)) a)
         | OutList entries =>
             if (- Z.of_nat (length entries) <=? k) && (k <? Z.of_nat (length entries))
             then Raise AttributeError a
             else Raise IndexError a
         end.

(** *** The auditor *)

(** ['%s_%i' % (self.group, self.id)] and ['(%s, %i)' % ...]. *)
Definition ident_underscore (m : Market) : string :=
  group m +:+ "_" +:+ pretty (id m).
Definition ident_tuple (m : Market) : string :=
  "(" +:+ group m +:+ ", " +:+ pretty (id m) +:+ ")".

Definition stale_text (m : Market) : string :=
  ident_underscore m +:+
  ": There are offers have been made beforelast round and not been retrieved in thisround get_offer(.)".
Definition open_offers_text (m : Market) : string :=
  ident_underscore m +:+
  ": There are offers an agent send that have not been retrieved in this round get_offer(.)".
Definition unread_text (m : Market) : string :=
  ident_tuple m +:+
  ": There are messages an agent send that have not been retrieved in this round get_messages(.)".

(** [sum([len(x) for x in list(table.values())])]. *)
Definition total_len {K V} `{Countable K} (len : V → nat) (t : gmap K V) : nat :=
  sum_list (len <$> (map_to_list t).*2).

(** Some given offer carries a [made] stamp older than the round. *)
Definition has_stale_offer (m : Market) : bool :=
  existsb (λ o, offer_made o <? round m) (map_to_list (given_offers m)).*2.

(** [_check_for_lost_messages]; the dumps it prints before raising are
    not modelled. *)
Definition _check_for_lost_messages : M Agent unit :=
  λ a, let m := market a in
       if has_stale_offer m then Raise (Exception (stale_text m)) a
       else if negb (total_len size (open_offers_buy m) =? 0)%nat
       then Raise (Exception (open_offers_text m)) a
       else if negb (total_len size (open_offers_sell m) =? 0)%nat
       then Raise (Exception (open_offers_text m)) a
       else if negb (total_len length (msgs a) =? 0)%nat
       then Raise (Exception (unread_text m)) a
       else Ret tt a.

(** Modelled from the spec: the caller of the auditor is outside the
    messaging file; it runs the check at the end of a round when the
    flag stored by [__init__] is set. *)
Definition end_of_round_audit : M Agent unit :=
  λ a, if check_every_round_for_lost_messages a
       then _check_for_lost_messages a
       else Ret tt a.

(** *** One round *)

(** Modelled from the spec: the round scheduler is outside the messaging
    file.  In a round every agent of [plan] makes its [send] calls, the
    router then runs once for each of them, and the clearing pass of the
    receiver follows. *)
Definition call : Type := name * string * value.

Definition send_all (x : loc) (calls : list call) : M store unit :=
  for_each (λ '(to, topic, content), at_loc x (send to topic content)) calls.

Definition send_phase (plan : list (loc * list call)) : M store unit :=
  for_each (λ '(x, calls), send_all x calls) plan.

Definition delivery_pass (agents : registry) (senders : list loc) : M store unit :=
  for_each (λ x, _post_messages x agents) senders.

Definition round_to_clearing (agents : registry) (plan : list (loc * list call))
    (la : loc) : M store unit :=
  run send_phase plan;
  run delivery_pass agents plan.*1;
  at_loc la _do_message_clearing.

(** The envelopes that the calls of one agent, named [from], address to
    the object [la] under topic [T]. *)
Definition envelopes_of (agents : registry) (la : loc) (T : string)
    (from : name) (calls : list call) : list payload :=
  flat_map (λ '(to, topic, content),
      if decide (topic = T ∧ agents !! to = Some la)
      then [PMessage (mkMessage from to topic content)]
      else []) calls.

(** The same over a whole plan; [h] is the store the round starts from. *)
Definition envelopes_for (h : store) (agents : registry) (la : loc) (T : string)
    (plan : list (loc * list call)) : list payload :=
  flat_map (λ '(x, calls),
      match h !! x with
      | Some a => envelopes_of agents la T (agent_name a) calls
      | None => []
      end) plan.

(** [processed es a a']: dispatching the entries [es] one after the
    other, each once and in list order, leads from [a] to [a']. *)
Inductive processed : list envelope → Agent → Agent → Prop :=
  | processed_nil a : processed [] a a
  | processed_cons e es a a1 a2 :
      dispatch e a = Ret tt a1 →
      processed es a1 a2 →
      processed (e :: es) a a2.

(** The payloads that [entries] carry under kind [T], in order. *)
Definition of_kind (T : string) (entries : list envelope) : list payload :=
  flat_map (λ '(typ, msg), if decide (typ = T) then [msg] else []) entries.

(** The envelopes of an outbox that the registry routes to [l]. *)
Definition addressed (agents : registry) (l : loc)
    (entries : list (name * envelope)) : list envelope :=
  flat_map (λ '(to, env), if decide (agents !! to = Some l) then [env] else [])
    entries.

(** The outbox entries that the [send] calls of an agent queue. *)
Definition entries_of (from : name) (calls : list call) : list (name * envelope) :=
  map (λ '(to, topic, content),
         (to, (topic, PMessage (mkMessage from to topic content)))) calls.

(** The list outbox of the object at [x]. *)
Definition out_entries (h : store) (x : loc) : list (name * envelope) :=
  match h !! x with
  | Some a => match out a with OutList es => es | OutBuckets _ => [] end
  | None => []
  end.

(** Every entry names a registered receiver whose object is in the store. *)
Definition routable (agents : registry) (h : store)
    (entries : list (name * envelope)) : Prop :=
  ∀ to env, (to, env) ∈ entries → ∃ l, agents !! to = Some l ∧ is_Some (h !! l).

(** The track a cancel entry selects: ['r'] the pay track, ['d'] the
    deliver track. *)
Definition track_of (pay_track : bool) : Market → gmap string (gmap Z Contract) :=
  if pay_track then contracts_pay else contracts_deliver.

Definition discriminator (pay_track : bool) : string :=
  if pay_track then "r" else "d".

(** *** The rest of the mailbox *)

(** The loop of [get_messages_all]: shuffle each queue in place and put
    it in [ret].  [items()] runs in the insertion order of the
    dictionary, which a finite map does not record: the order is the
    argument [order], and a key that [order] names without the
    dictionary holding it is passed over. *)
Fixpoint shuffle_each (order : list string) (q ret : gmap string (list payload))
    (g : rng) : gmap string (list payload) * gmap string (list payload) * rng :=
  match order with
  | [] => (q, ret, g)
  | key :: rest =>
      match q !! key with
      | Some l =>
          let '(l', g') := shuffle l g in
          shuffle_each rest (<[key := l']> q) (<[key := l']> ret) g'
      | None => shuffle_each rest q ret g
      end
  end.

(** [get_messages_all], run in the iteration order [order]. *)
Definition get_messages_all (order : list string)
    : M (Agent * rng) (gmap string (list payload)) :=
  λ '(a, g),
    let '(q, ret, g') := shuffle_each order (msgs a) ∅ g in
    Ret ret (set_msgs ∅ (set_msgs q a), g').

(** [order] is an iteration order of the dictionary [q]: every key once. *)
Definition iterates (order : list string) (q : gmap string (list payload)) : Prop :=
  NoDup order ∧ ∀ k, k ∈ order ↔ is_Some (q !! k).

(** A sequence of [_send_multiprocessing] calls, one per entry. *)
Definition send_all_multiprocessing (entries : list (name * envelope)) : M Agent unit :=
  for_each (λ '(to, (typ, msg)), _send_multiprocessing to typ msg) entries.

(** The entries whose receiver falls in partition [k] of [n]. *)
Definition in_partition (n k : Z) (entries : list (name * envelope))
    : list (name * envelope) :=
  filter (λ e, partition e.1 n = k) entries.

(** The open-offer table a kind code selects: ['!b'] the buy table,
    ['!s'] the sell table. *)
Definition offer_table (buy : bool) : Market → gmap string (gmap Z payload) :=
  if buy then open_offers_buy else open_offers_sell.

Definition offer_kind (buy : bool) : string :=
  if buy then "!b" else "!s".

(** No topic queue is filed under a kind code with a branch of its own. *)
Definition no_reserved_queue (a : Agent) : Prop :=
  ∀ T, reserved T = true → msgs a !! T = None.

(** The kind codes whose branch reads an attribute of the payload. *)
Definition attribute_kinds : list string :=
  ["!b"; "!s"; "_q"; "!o"; "_ac"; "_dp"].

(** The four conditions under which the auditor finds nothing. *)
Definition audit_clean (a : Agent) : Prop :=
  (∀ k o, given_offers (market a) !! k = Some o → round (market a) ≤ offer_made o)
  ∧ (∀ good t, open_offers_buy (market a) !! good = Some t → t = ∅)
  ∧ (∀ good t, open_offers_sell (market a) !! good = Some t → t = ∅)
  ∧ (∀ topic q, msgs a !! topic = Some q → q = []).

(** ** Properties *)

Ltac unfold_monad :=
  unfold on_market, zoom, mbind, mret, mraise, mmodify, mget, orraise, lift_sum in *.

(** *** Retrieval *)

Lemma get_messages_absent topic a g :
  msgs a !! topic = None →
  get_messages topic (a, g) = Ret [] (a, g).
Proof.
  intros Habs. unfold get_messages. rewrite Habs.
  destruct a as [m q i o n c]. cbn in *.
  rewrite lookup_insert_eq. unfold set_msgs. cbn.
  by rewrite delete_insert_id.
Qed.

Lemma get_messages_present topic a g l :
  msgs a !! topic = Some l →
  get_messages topic (a, g) =
    Ret (shuffle l g).1 (set_msgs (delete topic (msgs a)) a, (shuffle l g).2).
Proof.
  intros Hl. unfold get_messages. rewrite Hl.
  destruct (shuffle l g) as [l' g'].
  destruct a as [m q i o n c]. cbn in *.
  rewrite lookup_insert_eq. unfold set_msgs. cbn.
  by rewrite delete_insert_eq.
Qed.

(** C8: [get_messages] on a topic that holds no entry returns the empty
    sequence and raises nothing. *)
Theorem get_messages_unknown_topic topic a g :
  msgs a !! topic = None →
  ∃ st, get_messages topic (a, g) = Ret [] st.
Proof. intros Habs. eexists. by apply get_messages_absent. Qed.

(** C9 (amended): on a topic that holds no entry, the empty queue that
    [get_messages] stores is popped again before the call returns; the
    mapping is left as it was, with no entry for the topic. *)
Theorem get_messages_unknown_topic_state topic a g :
  msgs a !! topic = None →
  ∃ l a' g', get_messages topic (a, g) = Ret l (a', g')
             ∧ msgs a' = msgs a ∧ msgs a' !! topic = None.
Proof.
  intros Habs. exists [], a, g. by rewrite get_messages_absent.
Qed.


(** *** Single entries of the clearing pass *)

Lemma set_market_same a : set_market (market a) a = a.
Proof. by destruct a. Qed.

Lemma is_payer_spec c m :
  is_payer c m = true ↔ (pay_group c, pay_id c) = (group m, id m).
Proof.
  unfold is_payer. rewrite andb_true_iff, String.eqb_eq, Z.eqb_eq.
  split; [intros [-> ->]; done | intros [= -> ->]; done].
Qed.

Lemma is_payer_decide c a :
  is_payer c (market a) = bool_decide ((pay_group c, pay_id c) = agent_name a).
Proof.
  apply eq_true_iff_eq. rewrite is_payer_spec, bool_decide_eq_true. done.
Qed.

Lemma table_get_set {V} good i (v : V) t g j :
  table_get g j (table_set good i v t) =
    if decide ((g, j) = (good, i)) then Some v else table_get g j t.
Proof.
  unfold table_get, table_set.
  destruct (decide (g = good)) as [->|Hg].
  - rewrite lookup_insert_eq. cbn.
    destruct (decide (j = i)) as [->|Hj].
    + rewrite lookup_insert_eq. by rewrite decide_True.
    + rewrite lookup_insert_ne by done. rewrite decide_False by congruence. done.
  - rewrite lookup_insert_ne by done. rewrite decide_False by congruence. done.
Qed.

Lemma table_get_del {V} good i (t : gmap string (gmap Z V)) g j :
  table_get g j (table_del good i t) =
    if decide ((g, j) = (good, i)) then None else table_get g j t.
Proof.
  unfold table_get, table_del.
  destruct (decide (g = good)) as [->|Hg].
  - rewrite lookup_insert_eq. cbn.
    destruct (decide (j = i)) as [->|Hj].
    + rewrite lookup_delete_eq. by rewrite decide_True.
    + rewrite lookup_delete_ne by done. rewrite decide_False by congruence. done.
  - rewrite lookup_insert_ne by done. rewrite decide_False by congruence. done.
Qed.

Lemma dd_touch_present {K V} `{Countable K} key (dflt v : V) (t : gmap K V) :
  t !! key = Some v → dd_touch key dflt t = t.
Proof. intros Hk. unfold dd_touch. by rewrite Hk. Qed.

Lemma table_get_Some_touch {V} good i (v : V) t :
  table_get good i t = Some v → dd_touch good ∅ t = t.
Proof.
  unfold table_get. intros Hv. destruct (t !! good) eqn:Ht.
  - by eapply dd_touch_present.
  - cbn in Hv. by rewrite lookup_empty in Hv.
Qed.

Lemma credit_lookup good amount inv g :
  default 0 (credit good amount inv !! g) =
    if decide (g = good) then default 0 (inv !! good) + amount
    else default 0 (inv !! g).
Proof.
  unfold credit. destruct (decide (g = good)) as [->|Hg].
  - by rewrite lookup_insert_eq.
  - by rewrite lookup_insert_ne.
Qed.

(** C2: a contract-accept entry pops its contract from the made offers
    and files it in one track only: the pay track when the payer of the
    contract is the local agent, the deliver track otherwise. *)
Theorem contract_accept_filed_once a msg i c :
  attr_id msg = Some i →
  contract_offers_made (market a) !! i = Some c →
  ∃ a', dispatch ("_ac", msg) a = Ret tt a'
    ∧ contract_offers_made (market a') = delete i (contract_offers_made (market a))
    ∧ if decide ((pay_group c, pay_id c) = agent_name a)
      then table_get (contract_good c) (contract_id c) (contracts_pay (market a')) = Some c
           ∧ (∀ g j, (g, j) ≠ (contract_good c, contract_id c) →
                table_get g j (contracts_pay (market a')) =
                table_get g j (contracts_pay (market a)))
           ∧ contracts_deliver (market a') = contracts_deliver (market a)
      else table_get (contract_good c) (contract_id c) (contracts_deliver (market a')) = Some c
           ∧ (∀ g j, (g, j) ≠ (contract_good c, contract_id c) →
                table_get g j (contracts_deliver (market a')) =
                table_get g j (contracts_deliver (market a)))
           ∧ contracts_pay (market a') = contracts_pay (market a).
Proof.
  intros Hid Hmade.
  change (dispatch ("_ac", msg)) with (on_market (clear_contract_accept msg)).
  unfold clear_contract_accept. unfold_monad. rewrite Hid. cbn. rewrite Hmade. cbn.
  rewrite is_payer_decide.
  destruct (decide ((pay_group c, pay_id c) = agent_name a)) as [Hp|Hp].
  - rewrite bool_decide_eq_true_2 by done. eexists. split; [done|]. cbn.
    split; [done|]. split; [|split; [|done]].
    + rewrite table_get_set. by rewrite decide_True.
    + intros g j Hne. rewrite table_get_set. by rewrite decide_False.
  - rewrite bool_decide_eq_false_2 by done. eexists. split; [done|]. cbn.
    split; [done|]. split; [|split; [|done]].
    + rewrite table_get_set. by rewrite decide_True.
    + intros g j Hne. rewrite table_get_set. by rewrite decide_False.
Qed.


(** C3 (amended): a contract payment/delivery entry whose contract is
    on file in the track that the payer test selects credits the good and
    logs the round as delivered in the pay track when the payer is the
    local agent; otherwise it credits money by quantity times price and
    logs the round as paid in the deliver track. *)
Theorem contract_event_settles a msg c stored :
  attr_contract msg = Some c →
  table_get (contract_good c) (contract_id c)
    (if decide ((pay_group c, pay_id c) = agent_name a)
     then contracts_pay (market a) else contracts_deliver (market a)) = Some stored →
  ∃ a', dispatch ("_dp", msg) a = Ret tt a'
    ∧ if decide ((pay_group c, pay_id c) = agent_name a)
      then default 0 (inventory (market a') !! contract_good c) =
             default 0 (inventory (market a) !! contract_good c) + quantity c
           ∧ (∀ g, g ≠ contract_good c →
                inventory (market a') !! g = inventory (market a) !! g)
           ∧ table_get (contract_good c) (contract_id c) (contracts_pay (market a')) =
               Some (append_delivered (round (market a)) stored)
           ∧ delivered (append_delivered (round (market a)) stored) =
               delivered stored ++ [round (market a)]
           ∧ contracts_deliver (market a') = contracts_deliver (market a)
      else default 0 (inventory (market a') !! "money") =
             default 0 (inventory (market a) !! "money") + quantity c * price c
           ∧ (∀ g, g ≠ "money" →
                inventory (market a') !! g = inventory (market a) !! g)
           ∧ table_get (contract_good c) (contract_id c) (contracts_deliver (market a')) =
               Some (append_paid (round (market a)) stored)
           ∧ paid (append_paid (round (market a)) stored) =
               paid stored ++ [round (market a)]
           ∧ contracts_pay (market a') = contracts_pay (market a).
Proof.
  intros Hc Hstored.
  change (dispatch ("_dp", msg)) with (on_market (clear_contract_event msg)).
  unfold clear_contract_event. unfold_monad. rewrite Hc. cbn.
  rewrite is_payer_decide.
  destruct (decide ((pay_group c, pay_id c) = agent_name a)) as [Hp|Hp].
  - rewrite bool_decide_eq_true_2 by done. cbn.
    rewrite (table_get_Some_touch _ _ _ _ Hstored), Hstored. cbn.
    eexists. split; [done|]. cbn. repeat split.
    + rewrite credit_lookup. by rewrite decide_True.
    + intros g Hg. unfold credit. by rewrite lookup_insert_ne.
    + rewrite table_get_set. by rewrite decide_True.
  - rewrite bool_decide_eq_false_2 by done. cbn.
    rewrite (table_get_Some_touch _ _ _ _ Hstored), Hstored. cbn.
    eexists. split; [done|]. cbn. repeat split.
    + rewrite credit_lookup. by rewrite decide_True.
    + intros g Hg. unfold credit. by rewrite lookup_insert_ne.
    + rewrite table_get_set. by rewrite decide_True.
Qed.

(** C6 (amended): a contract-cancel entry whose discriminator selects
    a track in which the referenced contract is on file removes that
    contract from that track; every other contract of that track, also
    for the same good, and the whole other track stay as they were. *)
Theorem contract_cancel_removes_one a msg pay_track good i c :
  item msg 0 = inr (VStr (discriminator pay_track)) →
  item msg 1 = inr (VStr good) →
  item msg 2 = inr (VInt i) →
  table_get good i (track_of pay_track (market a)) = Some c →
  ∃ a', dispatch ("!d", msg) a = Ret tt a'
    ∧ table_get good i (track_of pay_track (market a')) = None
    ∧ (∀ g j, (g, j) ≠ (good, i) →
         table_get g j (track_of pay_track (market a')) =
         table_get g j (track_of pay_track (market a)))
    ∧ track_of (negb pay_track) (market a') = track_of (negb pay_track) (market a).
Proof.
  intros H0 H1 H2 Hc.
  change (dispatch ("!d", msg)) with (on_market (clear_contract_cancel msg)).
  unfold clear_contract_cancel, delete_contract. unfold_monad.
  rewrite H0. destruct pay_track; cbn in *.
  - rewrite H1. cbn. rewrite H2. cbn.
    rewrite (table_get_Some_touch _ _ _ _ Hc), Hc. cbn.
    eexists. split; [done|]. cbn. split; [|split; [|done]].
    + rewrite table_get_del. by rewrite decide_True.
    + intros g j Hne. rewrite table_get_del. by rewrite decide_False.
  - rewrite H1. cbn. rewrite H2. cbn.
    rewrite (table_get_Some_touch _ _ _ _ Hc), Hc. cbn.
    eexists. split; [done|]. cbn. split; [|split; [|done]].
    + rewrite table_get_del. by rewrite decide_True.
    + intros g j Hne. rewrite table_get_del. by rewrite decide_False.
Qed.

(** C10: a contract-cancel entry whose discriminator is neither ['r']
    nor ['d'] changes nothing: both tracks and the topic queues stay as
    they were and nothing is raised. *)
Theorem contract_cancel_other_discriminator a msg d :
  item msg 0 = inr d →
  value_is d "r" = false →
  value_is d "d" = false →
  dispatch ("!d", msg) a = Ret tt a.
Proof.
  intros H0 Hr Hd.
  change (dispatch ("!d", msg)) with (on_market (clear_contract_cancel msg)).
  unfold clear_contract_cancel. unfold_monad.
  rewrite H0. cbv beta iota delta [mret]. rewrite Hr. cbv beta iota.
  rewrite Hd. by rewrite set_market_same.
Qed.


(** *** Partitioned routing *)

(** C7 (amended): within one interpreter, whose built-in hash is
    [hash], and for a worker count [n > 0], the partition of a receiver
    lies in [0, n) and depends on the receiver alone: every send to it
    made in that interpreter, from any state and with any entry, appends
    to the bucket of that partition. *)
Theorem partition_stable to n :
  0 < n →
  0 ≤ partition to n < n
  ∧ ∀ a typ msg b,
      processes a = n →
      out a = OutBuckets b →
      ∃ a', _send_multiprocessing to typ msg a = Ret tt a'
        ∧ ∃ b', out a' = OutBuckets b'
          ∧ b' !! partition to n =
              Some (default [] (b !! partition to n) ++ [(to, (typ, msg))])
          ∧ ∀ k, k ≠ partition to n → b' !! k = b !! k.
Proof.
  intros Hn. split; [apply Z.mod_pos_bound; lia|].
  intros a typ msg b Hp Hout. unfold _send_multiprocessing.
  rewrite Hp, Hout. destruct (Z.eqb_spec n 0) as [->|_]; [lia|].
  eexists. split; [done|]. eexists. split; [done|]. unfold queue_append. split.
  - by rewrite lookup_insert_eq.
  - intros k Hk. by rewrite lookup_insert_ne.
Qed.

(** *** The auditor *)

Lemma sum_list_fmap_zero {X} (f : X → nat) (l : list X) :
  sum_list (f <$> l) = 0%nat ↔ ∀ x, x ∈ l → f x = 0%nat.
Proof.
  induction l as [|y l IH]; cbn.
  - split; [|done]. intros _ x Hx. by apply elem_of_nil in Hx.
  - rewrite Nat.eq_add_0, IH. split.
    + intros [Hy Hl] x Hx. apply elem_of_cons in Hx as [Heq|Hx]; [by subst|auto].
    + intros Hall. split; [|intros x Hx]; apply Hall, elem_of_cons; auto.
Qed.

Lemma total_len_zero {K V} `{Countable K} (len : V → nat) (t : gmap K V) :
  total_len len t = 0%nat ↔ ∀ k v, t !! k = Some v → len v = 0%nat.
Proof.
  unfold total_len. rewrite sum_list_fmap_zero. split.
  - intros Hall k v Hk. apply Hall.
    apply list_elem_of_fmap. exists (k, v). split; [done|].
    by apply elem_of_map_to_list.
  - intros Hall v [[k v'] [-> Hkv]]%list_elem_of_fmap.
    apply elem_of_map_to_list in Hkv. eauto.
Qed.

Lemma has_stale_offer_false m :
  has_stale_offer m = false ↔
  ∀ k o, given_offers m !! k = Some o → round m ≤ offer_made o.
Proof.
  unfold has_stale_offer. rewrite <- not_true_iff_false, existsb_exists. split.
  - intros Hno k o Hk. destruct (Z.ltb_spec (offer_made o) (round m)) as [Hlt|]; [|done].
    exfalso. apply Hno. exists o. split; [|by apply Z.ltb_lt].
    apply list_elem_of_In, list_elem_of_fmap. exists (k, o). split; [done|].
    by apply elem_of_map_to_list.
  - intros Hall (o & Hin & Hlt). apply list_elem_of_In, list_elem_of_fmap in Hin.
    destruct Hin as ([k o'] & -> & Hkv). apply elem_of_map_to_list in Hkv.
    apply Hall in Hkv. apply Z.ltb_lt in Hlt. cbn in *. lia.
Qed.

Lemma has_stale_offer_true m :
  has_stale_offer m = true ↔
  ∃ k o, given_offers m !! k = Some o ∧ offer_made o < round m.
Proof.
  unfold has_stale_offer. rewrite existsb_exists. split.
  - intros (o & Hin & Hlt). apply list_elem_of_In, list_elem_of_fmap in Hin.
    destruct Hin as ([k o'] & -> & Hkv). apply elem_of_map_to_list in Hkv.
    exists k, o'. split; [done|]. by apply Z.ltb_lt.
  - intros (k & o & Hk & Hlt). exists o. split; [|by apply Z.ltb_lt].
    apply list_elem_of_In, list_elem_of_fmap. exists (k, o). split; [done|].
    by apply elem_of_map_to_list.
Qed.

Lemma sum_list_fmap_nonzero {X} (f : X → nat) (l : list X) :
  sum_list (f <$> l) ≠ 0%nat → ∃ x, x ∈ l ∧ f x ≠ 0%nat.
Proof.
  induction l as [|y l IH]; cbn; [done|]. intros Hsum.
  destruct (f y) as [|n] eqn:Hy.
  - destruct (IH Hsum) as (x & Hx & Hfx). exists x. split; [|done].
    by apply list_elem_of_further.
  - exists y. split; [apply list_elem_of_here|]. by rewrite Hy.
Qed.

Lemma total_len_nonzero {K V} `{Countable K} (len : V → nat) (t : gmap K V) :
  total_len len t ≠ 0%nat → ∃ k v, t !! k = Some v ∧ len v ≠ 0%nat.
Proof.
  unfold total_len. intros Hsum.
  apply sum_list_fmap_nonzero in Hsum as (v & Hin & Hv).
  apply list_elem_of_fmap in Hin as ([k v'] & -> & Hkv).
  apply elem_of_map_to_list in Hkv. by exists k, v'.
Qed.

Lemma string_append_assoc (x y z : string) : (x +:+ y) +:+ z = x +:+ (y +:+ z).
Proof.
  induction x as [|c x IH]; [done|].
  change (String c ((x +:+ y) +:+ z) = String c (x +:+ (y +:+ z))). by f_equal.
Qed.

(** The three texts, written out as the formats of the source produce
    them. *)
Lemma stale_text_spelled m :
  stale_text m =
    group m +:+ "_" +:+ pretty (id m) +:+
    ": There are offers have been made beforelast round and not been retrieved in thisround get_offer(.)".
Proof. unfold stale_text, ident_underscore. by rewrite !string_append_assoc. Qed.

Lemma open_offers_text_spelled m :
  open_offers_text m =
    group m +:+ "_" +:+ pretty (id m) +:+
    ": There are offers an agent send that have not been retrieved in this round get_offer(.)".
Proof. unfold open_offers_text, ident_underscore. by rewrite !string_append_assoc. Qed.

Lemma unread_text_spelled m :
  unread_text m =
    "(" +:+ group m +:+ ", " +:+ pretty (id m) +:+
    "): There are messages an agent send that have not been retrieved in this round get_messages(.)".
Proof. unfold unread_text, ident_tuple. by rewrite !string_append_assoc. Qed.

(** The four ways through [_check_for_lost_messages]. *)
Lemma audit_cases a :
  (has_stale_offer (market a) = true
   ∧ _check_for_lost_messages a = Raise (Exception (stale_text (market a))) a)
  ∨ (has_stale_offer (market a) = false
     ∧ (total_len size (open_offers_buy (market a)) ≠ 0%nat
        ∨ total_len size (open_offers_sell (market a)) ≠ 0%nat)
     ∧ _check_for_lost_messages a = Raise (Exception (open_offers_text (market a))) a)
  ∨ (has_stale_offer (market a) = false
     ∧ total_len size (open_offers_buy (market a)) = 0%nat
     ∧ total_len size (open_offers_sell (market a)) = 0%nat
     ∧ total_len length (msgs a) ≠ 0%nat
     ∧ _check_for_lost_messages a = Raise (Exception (unread_text (market a))) a)
  ∨ (has_stale_offer (market a) = false
     ∧ total_len size (open_offers_buy (market a)) = 0%nat
     ∧ total_len size (open_offers_sell (market a)) = 0%nat
     ∧ total_len length (msgs a) = 0%nat
     ∧ _check_for_lost_messages a = Ret tt a).
Proof.
  unfold _check_for_lost_messages.
  destruct (has_stale_offer (market a)); [by left|]. right.
  destruct (Nat.eqb_spec (total_len size (open_offers_buy (market a))) 0) as [Hb|Hb];
    cbn; [|left; split; [done|]; split; [by left|done]].
  destruct (Nat.eqb_spec (total_len size (open_offers_sell (market a))) 0) as [Hs|Hs];
    cbn; [|left; split; [done|]; split; [by right|done]].
  right.
  destruct (Nat.eqb_spec (total_len length (msgs a)) 0) as [Hq|Hq]; cbn;
    [right|left]; done.
Qed.

Lemma audit_outcome a :
  (∃ text, _check_for_lost_messages a = Raise (Exception text) a)
  ∨ (_check_for_lost_messages a = Ret tt a
     ∧ has_stale_offer (market a) = false
     ∧ total_len size (open_offers_buy (market a)) = 0%nat
     ∧ total_len size (open_offers_sell (market a)) = 0%nat
     ∧ total_len length (msgs a) = 0%nat).
Proof.
  destruct (audit_cases a)
    as [(_ & ?)|[(_ & _ & ?)|[(_ & _ & _ & _ & ?)|(? & ? & ? & ? & ?)]]];
    [left; by eexists..|by right].
Qed.

(** C4: with the audit flag set, the auditor raises whenever an
    open-offer table or a topic queue is nonempty, and the text of the
    error is one of the three of the source, each starting with the
    group and the id of the agent: the one about offers made before the
    round when a given offer is stale, else the one about unretrieved
    offers when an open-offer table is nonempty, else the one about
    unretrieved messages.  It returns normally when all tables and
    queues are empty and no given offer is stale. *)
Theorem lost_message_audit a :
  check_every_round_for_lost_messages a = true →
  ((∃ good t, open_offers_buy (market a) !! good = Some t ∧ t ≠ ∅)
   ∨ (∃ good t, open_offers_sell (market a) !! good = Some t ∧ t ≠ ∅)
   ∨ (∃ topic q, msgs a !! topic = Some q ∧ q ≠ []) →
   ∃ text,
     end_of_round_audit a = Raise (Exception text) a
     ∧ (((∃ k o, given_offers (market a) !! k = Some o
                 ∧ offer_made o < round (market a))
         ∧ text =
             group (market a) +:+ "_" +:+ pretty (id (market a)) +:+
             ": There are offers have been made beforelast round and not been retrieved in thisround get_offer(.)")
        ∨ ((∀ k o, given_offers (market a) !! k = Some o →
                   round (market a) ≤ offer_made o)
           ∧ ((∃ good t, open_offers_buy (market a) !! good = Some t ∧ t ≠ ∅)
              ∨ (∃ good t, open_offers_sell (market a) !! good = Some t ∧ t ≠ ∅))
           ∧ text =
               group (market a) +:+ "_" +:+ pretty (id (market a)) +:+
               ": There are offers an agent send that have not been retrieved in this round get_offer(.)")
        ∨ ((∀ k o, given_offers (market a) !! k = Some o →
                   round (market a) ≤ offer_made o)
           ∧ (∀ good t, open_offers_buy (market a) !! good = Some t → t = ∅)
           ∧ (∀ good t, open_offers_sell (market a) !! good = Some t → t = ∅)
           ∧ text =
               "(" +:+ group (market a) +:+ ", " +:+ pretty (id (market a)) +:+
               "): There are messages an agent send that have not been retrieved in this round get_messages(.)")))
  ∧ ((∀ k o, given_offers (market a) !! k = Some o → round (market a) ≤ offer_made o) →
     (∀ good t, open_offers_buy (market a) !! good = Some t → t = ∅) →
     (∀ good t, open_offers_sell (market a) !! good = Some t → t = ∅) →
     (∀ topic q, msgs a !! topic = Some q → q = []) →
     end_of_round_audit a = Ret tt a).
Proof.
  intros Hflag. unfold end_of_round_audit. rewrite Hflag.
  assert (Hnonempty : ∀ (t : gmap string (gmap Z payload)),
            total_len size t ≠ 0%nat → ∃ good inner, t !! good = Some inner ∧ inner ≠ ∅).
  { intros t Ht. apply total_len_nonzero in Ht as (k & v & Hk & Hv).
    exists k, v. split; [done|]. intros ->. by rewrite map_size_empty in Hv. }
  assert (Hempty : ∀ (t : gmap string (gmap Z payload)),
            total_len size t = 0%nat → ∀ good inner, t !! good = Some inner → inner = ∅).
  { intros t Ht k v Hk. by apply map_size_empty_iff, (proj1 (total_len_zero _ _) Ht k). }
  split.
  - intros Hne.
    destruct (audit_cases a)
      as [(Hst & Hr)|[(Hst & Ht & Hr)|[(Hst & Hb & Hs & Hq & Hr)|(_ & Hb & Hs & Hq & _)]]].
    + eexists. split; [exact Hr|]. left.
      split; [by apply has_stale_offer_true|apply stale_text_spelled].
    + eexists. split; [exact Hr|]. right. left.
      split; [by apply has_stale_offer_false|].
      split; [|apply open_offers_text_spelled].
      destruct Ht as [Ht|Ht]; [left|right]; by apply Hnonempty.
    + eexists. split; [exact Hr|]. right. right.
      split; [by apply has_stale_offer_false|].
      split; [by apply Hempty|]. split; [by apply Hempty|].
      apply unread_text_spelled.
    + exfalso.
      destruct Hne as [(g & t & Hg & Ht)|[(g & t & Hg & Ht)|(T & q & HT & Hq')]].
      * by apply Ht, (Hempty _ Hb g).
      * by apply Ht, (Hempty _ Hs g).
      * apply Hq', length_zero_iff_nil. by eapply (proj1 (total_len_zero _ _) Hq).
  - intros Hstale Hb Hs Hq. unfold _check_for_lost_messages.
    rewrite (proj2 (has_stale_offer_false _) Hstale).
    rewrite (proj2 (total_len_zero size (open_offers_buy (market a)))); cbn.
    2:{ intros k v Hk. by rewrite (Hb _ _ Hk). }
    rewrite (proj2 (total_len_zero size (open_offers_sell (market a)))); cbn.
    2:{ intros k v Hk. by rewrite (Hs _ _ Hk). }
    rewrite (proj2 (total_len_zero length (msgs a))); cbn; [done|].
    intros k v Hk. by rewrite (Hq _ _ Hk).
Qed.


(** *** The clearing pass *)

Lemma on_market_frame {A} (c : M Market A) a :
  match on_market c a with
  | Ret _ a' | Raise _ a' =>
      msgs a' = msgs a ∧ inbox a' = inbox a ∧ out a' = out a
  end.
Proof. unfold on_market, zoom. by destruct (c (market a)). Qed.

Lemma dispatch_generic typ msg a :
  reserved typ = false →
  dispatch (typ, msg) a = Ret tt (set_msgs (queue_append typ msg (msgs a)) a).
Proof.
  unfold reserved, dispatch. intros Hres.
  repeat (apply orb_false_elim in Hres as [Hres ?]).
  repeat match goal with H : String.eqb _ _ = false |- _ => rewrite H; clear H end.
  done.
Qed.

Lemma dispatch_reserved typ msg a :
  reserved typ = true →
  match dispatch (typ, msg) a with
  | Ret _ a' | Raise _ a' =>
      msgs a' = msgs a ∧ inbox a' = inbox a ∧ out a' = out a
  end.
Proof.
  unfold reserved, dispatch. intros Hres.
  repeat (destruct (String.eqb typ _); [apply on_market_frame|]).
  done.
Qed.

Lemma dispatch_inbox e a :
  match dispatch e a with
  | Ret _ a' | Raise _ a' => inbox a' = inbox a
  end.
Proof.
  destruct e as [typ msg]. destruct (reserved typ) eqn:Hres.
  - pose proof (dispatch_reserved typ msg a Hres) as Hd.
    by destruct (dispatch (typ, msg) a) as [? ?|? ?]; destruct Hd as (_ & ? & _).
  - by rewrite dispatch_generic.
Qed.

Lemma processed_inbox es a a' : processed es a a' → inbox a' = inbox a.
Proof.
  induction 1 as [|e es a a1 a2 Hd _ IH]; [done|].
  pose proof (dispatch_inbox e a) as Hi. rewrite Hd in Hi. congruence.
Qed.

Lemma for_each_dispatch es a :
  match for_each dispatch es a with
  | Ret _ a' => processed es a a'
  | Raise e a' =>
      ∃ done e0 rest a1,
        es = done ++ e0 :: rest ∧ processed done a a1 ∧ dispatch e0 a1 = Raise e a'
  end.
Proof.
  revert a. induction es as [|e es IH]; intros a; cbn.
  - constructor.
  - unfold mbind. destruct (dispatch e a) as [[] a1|x a1] eqn:Hd.
    + specialize (IH a1). destruct (for_each dispatch es a1) as [[] a2|x a2].
      * by econstructor.
      * destruct IH as (done & e0 & rest & a3 & -> & Hp & He).
        exists (e :: done), e0, rest, a3. split; [done|]. split; [|done].
        by econstructor.
    + exists [], e, es, a. split; [done|]. split; [constructor|done].
Qed.

Lemma processed_for_each es a a' :
  processed es a a' → for_each dispatch es a = Ret tt a'.
Proof.
  induction 1 as [|e es a a1 a2 Hd _ IH]; [done|].
  cbn. unfold mbind. by rewrite Hd.
Qed.

(** C5 (amended): when the clearing pass returns, every inbox entry has
    been dispatched once, in arrival order, and the inbox is empty; when
    a branch raises, the pass stops at that entry and the inbox keeps
    all its entries. *)
Theorem clearing_drains_inbox a :
  match _do_message_clearing a with
  | Ret _ a' =>
      inbox a' = [] ∧ ∃ a1, processed (inbox a) a a1 ∧ a' = set_inbox [] a1
  | Raise e a' =>
      inbox a' = inbox a
      ∧ ∃ done e0 rest a1,
          inbox a = done ++ e0 :: rest
          ∧ processed done a a1 ∧ dispatch e0 a1 = Raise e a'
  end.
Proof.
  unfold _do_message_clearing, mbind, mget, mmodify.
  pose proof (for_each_dispatch (inbox a) a) as Hloop.
  destruct (for_each dispatch (inbox a) a) as [[] a1|e a1].
  - split; [done|]. by exists a1.
  - split; [|done]. destruct Hloop as (done & e0 & rest & a2 & _ & Hp & He).
    pose proof (dispatch_inbox e0 a2) as Hi. rewrite He in Hi.
    rewrite Hi. by eapply processed_inbox.
Qed.


Lemma of_kind_app T es1 es2 : of_kind T (es1 ++ es2) = of_kind T es1 ++ of_kind T es2.
Proof. unfold of_kind. apply flat_map_app. Qed.

Lemma dispatch_queue T e a a' :
  reserved T = false →
  dispatch e a = Ret tt a' →
  default [] (msgs a' !! T) = default [] (msgs a !! T) ++ of_kind T [e].
Proof.
  intros HT Hd. destruct e as [typ msg]. cbn.
  destruct (reserved typ) eqn:Hres.
  - pose proof (dispatch_reserved typ msg a Hres) as Hf. rewrite Hd in Hf.
    destruct Hf as (-> & _). rewrite decide_False by congruence.
    by rewrite !app_nil_r.
  - rewrite dispatch_generic in Hd by done. injection Hd as <-. cbn.
    unfold queue_append. destruct (decide (typ = T)) as [->|Hne].
    + by rewrite lookup_insert_eq.
    + rewrite lookup_insert_ne by done. by rewrite !app_nil_r.
Qed.

Lemma processed_queue T es a a' :
  reserved T = false →
  processed es a a' →
  default [] (msgs a' !! T) = default [] (msgs a !! T) ++ of_kind T es.
Proof.
  intros HT. induction 1 as [a|e es a a1 a2 Hd _ IH].
  - by rewrite app_nil_r.
  - rewrite IH, (dispatch_queue T e a a1) by done.
    change (e :: es) with ([e] ++ es). by rewrite of_kind_app, app_assoc.
Qed.

Lemma clearing_queue T a a' :
  reserved T = false →
  _do_message_clearing a = Ret tt a' →
  default [] (msgs a' !! T) = default [] (msgs a !! T) ++ of_kind T (inbox a).
Proof.
  intros HT. unfold _do_message_clearing, mbind, mget, mmodify.
  pose proof (for_each_dispatch (inbox a) a) as Hloop.
  destruct (for_each dispatch (inbox a) a) as [[] a1|e a1]; [|done].
  intros [= <-]. cbn. by apply processed_queue.
Qed.

Lemma get_messages_perm T a g :
  ∃ l a' g', get_messages T (a, g) = Ret l (a', g')
             ∧ l ≡ₚ default [] (msgs a !! T) ∧ msgs a' !! T = None.
Proof using shuffle_perm.
  destruct (msgs a !! T) as [q|] eqn:Hq.
  - eexists _, _, _. split; [by apply get_messages_present|].
    split; [apply shuffle_perm|]. cbn. apply lookup_delete_eq.
  - exists [], a, g. by rewrite get_messages_absent.
Qed.


(** *** The router *)

Lemma at_loc_Ret {A} l (c : M Agent A) h x h' :
  at_loc l c h = Ret x h' →
  ∃ a a', h !! l = Some a ∧ c a = Ret x a' ∧ h' = <[l := a']> h.
Proof.
  unfold at_loc. destruct (h !! l) as [a|]; [|done].
  destruct (c a) as [y a'|] eqn:Hc; [|done]. intros [= -> <-]. eauto.
Qed.

Lemma set_inbox_app_nil b : set_inbox (inbox b ++ []) b = b.
Proof. rewrite app_nil_r. by destruct b. Qed.

Lemma addressed_cons agents l to env es :
  addressed agents l ((to, env) :: es) =
    (if decide (agents !! to = Some l) then [env] else []) ++ addressed agents l es.
Proof. done. Qed.

Lemma post_entries_store agents es h h' :
  for_each (post_entry agents) es h = Ret tt h' →
  ∀ l, h' !! l = (λ b, set_inbox (inbox b ++ addressed agents l es) b) <$> h !! l.
Proof.
  revert h. induction es as [|[to env] es IH]; intros h Hrun l.
  - injection Hrun as <-. destruct (h !! l) as [b|]; cbn; [|done].
    by rewrite set_inbox_app_nil.
  - cbn in Hrun. unfold mbind, orraise in Hrun.
    destruct (agents !! to) as [l0|] eqn:Hto; [|done]. cbn in Hrun.
    destruct (at_loc l0 _ h) as [[] h1|] eqn:Hput; [|done].
    apply at_loc_Ret in Hput as (b & b' & Hb & [= <-] & ->).
    rewrite (IH _ Hrun l), addressed_cons.
    destruct (decide (l = l0)) as [->|Hne].
    + rewrite lookup_insert_eq, Hb, decide_True by done. cbn.
      by rewrite <- app_assoc.
    + rewrite lookup_insert_ne by done.
      rewrite decide_False by congruence. done.
Qed.

Lemma post_messages_store x agents h h' a es :
  h !! x = Some a →
  out a = OutList es →
  _post_messages x agents h = Ret tt h' →
  ∀ l, h' !! l =
       (λ b, let b' := set_inbox (inbox b ++ addressed agents l es) b in
             if decide (l = x) then set_out (OutList []) b' else b') <$> h !! l.
Proof.
  intros Hx Hout Hrun l. unfold _post_messages, mbind in Hrun.
  unfold at_loc at 1 in Hrun. rewrite Hx in Hrun. cbn in Hrun.
  rewrite (insert_id h x a Hx), Hout in Hrun.
  destruct (for_each (post_entry agents) es h) as [[] h1|] eqn:Hloop; [|done].
  apply at_loc_Ret in Hrun as (b & b' & Hb & [= <-] & ->).
  pose proof (post_entries_store _ _ _ _ Hloop) as Hh1.
  destruct (decide (l = x)) as [->|Hne].
  - rewrite lookup_insert_eq. rewrite Hh1, Hx in Hb. injection Hb as <-.
    by rewrite Hx.
  - rewrite lookup_insert_ne by done. rewrite Hh1.
    by destruct (h !! l).
Qed.

Lemma flat_map_ext_elem {X Y} (f f' : X → list Y) (l : list X) :
  (∀ x, x ∈ l → f x = f' x) → flat_map f l = flat_map f' l.
Proof.
  induction l as [|y l IH]; intros Hext; [done|]. cbn.
  rewrite Hext by apply list_elem_of_here.
  rewrite IH; [done|]. intros x Hx. apply Hext. by apply list_elem_of_further.
Qed.

Lemma delivery_pass_store agents senders h h' :
  NoDup senders →
  (∀ x, x ∈ senders → ∃ a es, h !! x = Some a ∧ out a = OutList es) →
  delivery_pass agents senders h = Ret tt h' →
  ∀ l a, h !! l = Some a →
    ∃ a', h' !! l = Some a'
      ∧ inbox a' =
          inbox a ++ flat_map (λ x, addressed agents l (out_entries h x)) senders
      ∧ msgs a' = msgs a.
Proof.
  unfold delivery_pass. revert h.
  induction senders as [|x senders IH]; intros h Hnd Hlist Hrun l a Hl.
  - injection Hrun as <-. exists a. by rewrite app_nil_r.
  - apply NoDup_cons in Hnd as [Hx Hnd]. cbn in Hrun. unfold mbind in Hrun.
    destruct (_post_messages x agents h) as [[] h1|] eqn:Hpost; [|done].
    destruct (Hlist x) as (ax & es & Hax & Hes); [apply list_elem_of_here|].
    pose proof (post_messages_store _ _ _ _ _ _ Hax Hes Hpost) as Hh1.
    assert (Hrest : ∀ y, y ∈ senders → out_entries h1 y = out_entries h y).
    { intros y Hy. unfold out_entries. rewrite Hh1.
      destruct (h !! y) as [b|]; cbn; [|done].
      rewrite decide_False; [done|]. intros ->. done. }
    pose proof (Hh1 l) as Hl1. rewrite Hl in Hl1. cbn in Hl1.
    edestruct (IH h1 Hnd) as (a' & Ha' & Hin & Hq); [|exact Hrun|exact Hl1|].
    { intros y Hy. destruct (Hlist y) as (b & esb & Hb & Hob);
        [by apply list_elem_of_further|].
      rewrite Hh1, Hb. cbn. rewrite decide_False by (intros ->; done).
      eauto. }
    exists a'. split; [done|]. rewrite Hin, Hq.
    rewrite (flat_map_ext_elem _ (λ y, addressed agents l (out_entries h y)))
      by (intros y Hy; by rewrite Hrest).
    cbn. unfold out_entries at 2. rewrite Hax, Hes.
    destruct (decide (l = x)); cbn; by rewrite app_assoc.
Qed.


(** *** A whole round *)

Lemma send_all_store x calls h a es :
  h !! x = Some a →
  out a = OutList es →
  send_all x calls h =
    Ret tt (<[x := set_out (OutList (es ++ entries_of (agent_name a) calls)) a]> h).
Proof.
  unfold send_all. revert h a es.
  induction calls as [|[[to topic] content] calls IH]; intros h a es Hx Hout.
  - cbn. rewrite app_nil_r, <- Hout.
    replace (set_out (out a) a) with a by (by destruct a).
    by rewrite insert_id.
  - cbn. unfold mbind, at_loc at 1. rewrite Hx. unfold send, _send.
    rewrite Hout.
    erewrite IH; [|apply lookup_insert_eq|done].
    rewrite insert_insert_eq. cbn. by rewrite <- app_assoc.
Qed.

Lemma send_phase_store plan h :
  NoDup plan.*1 →
  (∀ x, x ∈ plan.*1 → ∃ a, h !! x = Some a ∧ out a = OutList []) →
  ∃ h1, send_phase plan h = Ret tt h1
    ∧ (∀ x calls, (x, calls) ∈ plan →
         ∃ a, h !! x = Some a
              ∧ h1 !! x = Some (set_out (OutList (entries_of (agent_name a) calls)) a))
    ∧ (∀ l, l ∉ plan.*1 → h1 !! l = h !! l).
Proof.
  unfold send_phase. revert h.
  induction plan as [|[x calls] plan IH]; intros h Hnd Hout.
  - exists h. split; [done|]. split; [|done]. intros x calls Hin.
    by apply elem_of_nil in Hin.
  - cbn in Hnd. apply NoDup_cons in Hnd as [Hx Hnd].
    destruct (Hout x) as (a & Ha & Hoa); [apply list_elem_of_here|].
    cbn. unfold mbind. rewrite (send_all_store x calls h a [] Ha Hoa). cbn.
    set (a1 := set_out (OutList (entries_of (agent_name a) calls)) a).
    destruct (IH (<[x := a1]> h) Hnd) as (h1 & Hrun & Hsent & Hother).
    { intros y Hy. destruct (Hout y) as (b & Hb & Hob);
        [by apply list_elem_of_further|].
      exists b. rewrite lookup_insert_ne by (intros ->; done). done. }
    exists h1. split; [done|]. split.
    + intros y cs Hin. apply elem_of_cons in Hin as [[= -> ->]|Hin].
      * exists a. split; [done|]. rewrite Hother by done.
        apply lookup_insert_eq.
      * assert (y ≠ x) as Hne.
        { intros ->. apply Hx. apply list_elem_of_fmap. by exists (x, cs). }
        destruct (Hsent y cs Hin) as (b & Hb & Hb1).
        rewrite lookup_insert_ne in Hb by done. eauto.
    + intros l Hl. apply not_elem_of_cons in Hl as [Hne Hl].
      rewrite Hother by done. by rewrite lookup_insert_ne.
Qed.

Lemma envelopes_of_entries agents la T from calls :
  of_kind T (addressed agents la (entries_of from calls)) =
  envelopes_of agents la T from calls.
Proof.
  induction calls as [|[[to topic] content] calls IH]; [done|].
  cbn [entries_of map]. rewrite addressed_cons, of_kind_app.
  unfold entries_of in IH. rewrite IH. cbn.
  destruct (decide (agents !! to = Some la)) as [Hto|Hto]; cbn.
  - destruct (decide (topic = T)) as [->|HT].
    + by rewrite decide_True.
    + rewrite decide_False by (by intros [? _]). done.
  - rewrite decide_False by (by intros [_ ?]). done.
Qed.

Lemma flat_map_fst {X Y Z'} (f : X → list Z') (l : list (X * Y)) :
  flat_map f l.*1 = flat_map (λ p, f p.1) l.
Proof. induction l as [|[x y] l IH]; cbn; [done|]. by rewrite IH. Qed.

Lemma of_kind_flat_map {X} T (f : X → list envelope) (l : list X) :
  of_kind T (flat_map f l) = flat_map (λ x, of_kind T (f x)) l.
Proof.
  induction l as [|x l IH]; [done|].
  cbn [flat_map]. by rewrite of_kind_app, IH.
Qed.


(** C1 (amended): in a round that starts with the receiver's inbox and
    its queue for [T] empty and the senders' outboxes empty, and whose
    passes return normally, the first [get_messages T] of the receiver
    returns a permutation of the envelopes sent to it under the
    non-reserved topic [T], unchanged, and the second returns the empty
    sequence. *)
Theorem round_trip agents plan la T h0 a0 h3 g :
  reserved T = false →
  NoDup plan.*1 →
  (∀ x, x ∈ plan.*1 → ∃ a, h0 !! x = Some a ∧ out a = OutList []) →
  h0 !! la = Some a0 →
  inbox a0 = [] →
  default [] (msgs a0 !! T) = [] →
  round_to_clearing agents plan la h0 = Ret tt h3 →
  ∃ a3 l a4 g',
    h3 !! la = Some a3
    ∧ get_messages T (a3, g) = Ret l (a4, g')
    ∧ l ≡ₚ envelopes_for h0 agents la T plan
    ∧ get_messages T (a4, g') = Ret [] (a4, g').
Proof using shuffle_perm.
  intros HT Hnd Hout Hla Hinbox Hqueue Hround.
  destruct (send_phase_store plan h0 Hnd Hout) as (h1 & Hsend & Hsent & Hother).
  unfold round_to_clearing, mbind in Hround. rewrite Hsend in Hround.
  destruct (delivery_pass agents plan.*1 h1) as [[] h2|] eqn:Hdel; [|done].
  apply at_loc_Ret in Hround as (a2 & a3 & Ha2 & Hclear & ->).
  (* the receiver after the send phase *)
  assert (∃ a1, h1 !! la = Some a1 ∧ inbox a1 = [] ∧ msgs a1 = msgs a0)
    as (a1 & Ha1 & Hin1 & Hq1).
  { destruct (decide (la ∈ plan.*1)) as [Hmem|Hmem].
    - apply list_elem_of_fmap in Hmem as ([x calls] & -> & Hmem).
      destruct (Hsent _ _ Hmem) as (a & Ha & Ha1). cbn in *.
      rewrite Hla in Ha. injection Ha as <-. eauto.
    - exists a0. by rewrite Hother. }
  (* the receiver after the delivery pass *)
  destruct (delivery_pass_store agents plan.*1 h1 h2 Hnd) with (l := la) (a := a1)
    as (a2' & Ha2' & Hin2 & Hq2); [|done|done|].
  { intros x Hx. apply list_elem_of_fmap in Hx as ([y calls] & -> & Hmem).
    destruct (Hsent _ _ Hmem) as (a & _ & Ha1'). eauto. }
  rewrite Ha2 in Ha2'. injection Ha2' as <-.
  (* the queue after the clearing pass *)
  pose proof (clearing_queue T a2 a3 HT Hclear) as Hq3.
  rewrite Hq2, Hq1, Hqueue, Hin2, Hin1 in Hq3. cbn [app] in Hq3.
  rewrite of_kind_flat_map, flat_map_fst in Hq3.
  rewrite (flat_map_ext_elem _
             (λ p, match h0 !! p.1 with
                   | Some a => envelopes_of agents la T (agent_name a) p.2
                   | None => []
                   end)) in Hq3.
  2:{ intros [x calls] Hmem. cbn.
      destruct (Hsent _ _ Hmem) as (a & Ha & Ha1'). rewrite Ha.
      unfold out_entries. rewrite Ha1'. cbn. apply envelopes_of_entries. }
  assert (default [] (msgs a3 !! T) = envelopes_for h0 agents la T plan) as Hq4.
  { rewrite Hq3. unfold envelopes_for. apply flat_map_ext_elem.
    by intros [x calls] _. }
  destruct (get_messages_perm T a3 g) as (l & a4 & g' & Hget & Hperm & Hgone).
  exists a3, l, a4, g'. split; [apply lookup_insert_eq|]. split; [done|].
  split; [by rewrite Hperm, Hq4|]. by apply get_messages_absent.
Qed.


(** *** The passes return *)

Lemma elem_of_flat_map {X Y} (f : X → list Y) (l : list X) (y : Y) :
  y ∈ flat_map f l ↔ ∃ x, x ∈ l ∧ y ∈ f x.
Proof.
  rewrite list_elem_of_In, in_flat_map. split.
  - intros (x & Hx & Hy). exists x. by rewrite !list_elem_of_In.
  - intros (x & Hx & Hy). exists x. by rewrite <- !list_elem_of_In.
Qed.

Lemma elem_of_addressed agents l es env :
  env ∈ addressed agents l es ↔ ∃ to, (to, env) ∈ es ∧ agents !! to = Some l.
Proof.
  unfold addressed. rewrite elem_of_flat_map. split.
  - intros ([to env'] & Hin & Henv).
    destruct (decide (agents !! to = Some l)) as [Hto|]; [|by apply elem_of_nil in Henv].
    apply list_elem_of_singleton in Henv as ->. eauto.
  - intros (to & Hin & Hto). exists (to, env). split; [done|].
    rewrite decide_True by done. by apply list_elem_of_singleton.
Qed.

Lemma elem_of_entries_of from calls to typ msg :
  (to, (typ, msg)) ∈ entries_of from calls →
  ∃ content, (to, typ, content) ∈ calls.
Proof.
  unfold entries_of. rewrite list_elem_of_In, in_map_iff.
  intros ([[to' topic'] content] & [= <- <- _] & Hin).
  exists content. by apply list_elem_of_In.
Qed.

Lemma post_entries_total agents es h :
  routable agents h es →
  ∃ h', for_each (post_entry agents) es h = Ret tt h'.
Proof.
  revert h. induction es as [|[to env] es IH]; intros h Hok; [by exists h|].
  destruct (Hok to env) as (l & Hto & [b Hb]); [apply list_elem_of_here|].
  cbn. unfold mbind, orraise. rewrite Hto. cbn. unfold at_loc. rewrite Hb. cbn.
  apply IH. intros to' env' Hin.
  destruct (Hok to' env') as (l' & Hto' & Hl'); [by apply list_elem_of_further|].
  exists l'. split; [done|]. apply lookup_insert_is_Some'. by right.
Qed.

Lemma post_messages_total x agents h a es :
  h !! x = Some a →
  out a = OutList es →
  routable agents h es →
  ∃ h', _post_messages x agents h = Ret tt h'.
Proof.
  intros Hx Hout Hok. unfold _post_messages, mbind. unfold at_loc at 1.
  rewrite Hx. cbn. rewrite (insert_id h x a Hx), Hout.
  destruct (post_entries_total agents es h Hok) as (h1 & Hloop). rewrite Hloop.
  unfold at_loc. rewrite (post_entries_store _ _ _ _ Hloop x), Hx. cbn. eauto.
Qed.

Lemma delivery_pass_total agents senders h :
  NoDup senders →
  (∀ x, x ∈ senders →
     ∃ a es, h !! x = Some a ∧ out a = OutList es ∧ routable agents h es) →
  ∃ h', delivery_pass agents senders h = Ret tt h'.
Proof.
  unfold delivery_pass. revert h.
  induction senders as [|x senders IH]; intros h Hnd Hok; [by exists h|].
  apply NoDup_cons in Hnd as [Hx Hnd].
  destruct (Hok x) as (a & es & Ha & Hes & Hroute); [apply list_elem_of_here|].
  destruct (post_messages_total x agents h a es Ha Hes Hroute) as (h1 & Hpost).
  cbn. unfold mbind. rewrite Hpost.
  pose proof (post_messages_store _ _ _ _ _ _ Ha Hes Hpost) as Hh1.
  apply IH; [done|]. intros y Hy.
  destruct (Hok y) as (b & esb & Hb & Hob & Hrb); [by apply list_elem_of_further|].
  eexists _, esb. rewrite Hh1, Hb. cbn.
  rewrite decide_False by (intros ->; done). split; [done|]. split; [done|].
  intros to env Hin. destruct (Hrb to env Hin) as (l & Hto & [c Hc]).
  exists l. split; [done|]. rewrite Hh1, Hc. by eexists.
Qed.

Lemma for_each_generic es a :
  (∀ typ msg, (typ, msg) ∈ es → reserved typ = false) →
  ∃ a', for_each dispatch es a = Ret tt a'.
Proof.
  revert a. induction es as [|[typ msg] es IH]; intros a Hgen; [by exists a|].
  cbn [for_each]. unfold mbind.
  rewrite dispatch_generic by (eapply Hgen, list_elem_of_here).
  apply IH. intros typ' msg' Hin. eapply Hgen. by apply list_elem_of_further.
Qed.

(** The clearing pass returns when every entry has a kind without a
    branch of its own. *)
Lemma clearing_generic_total a :
  (∀ typ msg, (typ, msg) ∈ inbox a → reserved typ = false) →
  ∃ a', _do_message_clearing a = Ret tt a'.
Proof.
  intros Hgen. unfold _do_message_clearing, mbind, mget, mmodify.
  destruct (for_each_generic (inbox a) a Hgen) as (a1 & ->). eauto.
Qed.

(** A round returns when the outboxes start empty, every call names a
    registered receiver, and the calls that reach [la] use kinds without
    a branch of their own. *)
Lemma round_returns agents plan la h0 a0 :
  NoDup plan.*1 →
  (∀ x, x ∈ plan.*1 → ∃ a, h0 !! x = Some a ∧ out a = OutList []) →
  (∀ x calls to topic content,
     (x, calls) ∈ plan → (to, topic, content) ∈ calls →
     ∃ l, agents !! to = Some l ∧ is_Some (h0 !! l)
          ∧ (l = la → reserved topic = false)) →
  h0 !! la = Some a0 →
  inbox a0 = [] →
  ∃ h3, round_to_clearing agents plan la h0 = Ret tt h3.
Proof.
  intros Hnd Hout Hcalls Hla Hinbox.
  destruct (send_phase_store plan h0 Hnd Hout) as (h1 & Hsend & Hsent & Hother).
  assert (Hkeep : ∀ l, is_Some (h0 !! l) → is_Some (h1 !! l)).
  { intros l Hl. destruct (decide (l ∈ plan.*1)) as [Hmem|Hmem].
    - apply list_elem_of_fmap in Hmem as ([x calls] & -> & Hmem).
      destruct (Hsent _ _ Hmem) as (a & _ & Hh1). cbn. rewrite Hh1. by eexists.
    - by rewrite Hother. }
  assert (∃ a1, h1 !! la = Some a1 ∧ inbox a1 = []) as (a1 & Ha1 & Hin1).
  { destruct (decide (la ∈ plan.*1)) as [Hmem|Hmem].
    - apply list_elem_of_fmap in Hmem as ([x calls] & -> & Hmem).
      destruct (Hsent _ _ Hmem) as (a & Ha & Ha1). cbn in *.
      rewrite Hla in Ha. injection Ha as <-. eauto.
    - exists a0. by rewrite Hother. }
  assert (Hsenders : ∀ x, x ∈ plan.*1 →
            ∃ a es, h1 !! x = Some a ∧ out a = OutList es ∧ routable agents h1 es).
  { intros x Hx. apply list_elem_of_fmap in Hx as ([y calls] & -> & Hmem).
    destruct (Hsent _ _ Hmem) as (a & _ & Ha1'). eexists _, _.
    split; [done|]. split; [done|]. intros to [typ msg] Hin.
    apply elem_of_entries_of in Hin as (content & Hin).
    destruct (Hcalls _ _ _ _ _ Hmem Hin) as (l & Hto & Hl & _). eauto. }
  destruct (delivery_pass_total agents plan.*1 h1 Hnd Hsenders) as (h2 & Hdel).
  destruct (delivery_pass_store agents plan.*1 h1 h2 Hnd) with (l := la) (a := a1)
    as (a2 & Ha2 & Hin2 & _); [|done|done|].
  { intros x Hx. destruct (Hsenders x Hx) as (a & es & ? & ? & _). eauto. }
  destruct (clearing_generic_total a2) as (a3 & Hclear).
  { intros typ msg. rewrite Hin2, Hin1. cbn [app].
    intros (x & Hx & Hin)%elem_of_flat_map.
    apply elem_of_addressed in Hin as (to & Hin & Hto).
    apply list_elem_of_fmap in Hx as ([y calls] & -> & Hmem).
    destruct (Hsent _ _ Hmem) as (a & _ & Ha1'). cbn in Hin.
    unfold out_entries in Hin. rewrite Ha1' in Hin. cbn in Hin.
    apply elem_of_entries_of in Hin as (content & Hin).
    destruct (Hcalls _ _ _ _ _ Hmem Hin) as (l & Hto' & _ & Hres).
    apply Hres. congruence. }
  unfold round_to_clearing, mbind. rewrite Hsend, Hdel.
  unfold at_loc. rewrite Ha2, Hclear. eauto.
Qed.


(** ** Further properties of the mailbox *)

(** *** Retrieval *)

Lemma get_messages_frame T a g :
  ∃ l a' g',
    get_messages T (a, g) = Ret l (a', g')
    ∧ l ≡ₚ default [] (msgs a !! T)
    ∧ msgs a' = delete T (msgs a)
    ∧ market a' = market a ∧ inbox a' = inbox a ∧ out a' = out a.
Proof using shuffle_perm.
  destruct (msgs a !! T) as [q|] eqn:Hq.
  - eexists _, _, _. split; [by apply get_messages_present|].
    split; [apply shuffle_perm|]. done.
  - exists [], a, g. split; [by apply get_messages_absent|].
    split; [done|]. by rewrite delete_id.
Qed.

(** X1: [get_messages] never raises: it returns a permutation of the
    queue of the topic (empty when the topic holds none), removes that
    topic alone and leaves the rest of the agent as it was. *)
Theorem get_messages_total T a g :
  ∃ l a' g',
    get_messages T (a, g) = Ret l (a', g')
    ∧ l ≡ₚ default [] (msgs a !! T)
    ∧ msgs a' = delete T (msgs a)
    ∧ market a' = market a ∧ inbox a' = inbox a ∧ out a' = out a.
Proof using shuffle_perm. apply get_messages_frame. Qed.

Lemma shuffle_each_spec order :
  NoDup order →
  ∀ q ret g q' ret' g' k,
    shuffle_each order q ret g = (q', ret', g') →
    if decide (k ∈ order)
    then match q !! k with
         | Some l => ∃ l', ret' !! k = Some l' ∧ l' ≡ₚ l
         | None => ret' !! k = ret !! k
         end
    else ret' !! k = ret !! k.
Proof using shuffle_perm.
  induction order as [|key rest IH]; intros Hnd q ret g q' ret' g' k Heq.
  - injection Heq as <- <- <-. by rewrite decide_False by apply not_elem_of_nil.
  - apply NoDup_cons in Hnd as [Hkey Hnd]. cbn in Heq.
    destruct (q !! key) as [l|] eqn:Hq.
    + pose proof (shuffle_perm l g) as Hperm.
      destruct (shuffle l g) as [l1 g1]. cbn in Hperm.
      pose proof (IH Hnd _ _ _ _ _ _ k Heq) as Hk.
      destruct (decide (k = key)) as [->|Hne].
      * rewrite decide_True by apply list_elem_of_here.
        rewrite decide_False in Hk by done. rewrite Hq.
        exists l1. by rewrite Hk, lookup_insert_eq.
      * rewrite !lookup_insert_ne in Hk by done.
        destruct (decide (k ∈ rest)) as [Hin|Hin].
        -- rewrite decide_True by by apply list_elem_of_further. done.
        -- rewrite decide_False; [done|].
           intros [?|?]%elem_of_cons; done.
    + pose proof (IH Hnd _ _ _ _ _ _ k Heq) as Hk.
      destruct (decide (k = key)) as [->|Hne].
      * rewrite decide_True by apply list_elem_of_here.
        rewrite decide_False in Hk by done. by rewrite Hq.
      * destruct (decide (k ∈ rest)) as [Hin|Hin].
        -- rewrite decide_True by by apply list_elem_of_further. done.
        -- rewrite decide_False; [done|].
           intros [?|?]%elem_of_cons; done.
Qed.

(** X2: [get_messages_all], in whatever order the dictionary iterates,
    returns for every populated topic a permutation of its queue and
    nothing for the others, empties the whole mapping and leaves the rest
    of the agent as it was; a [get_messages] right after it returns the
    empty sequence for every topic. *)
Theorem get_messages_all_returns order a g :
  iterates order (msgs a) →
  ∃ ret a' g',
    get_messages_all order (a, g) = Ret ret (a', g')
    ∧ (∀ k, match msgs a !! k with
            | Some l => ∃ l', ret !! k = Some l' ∧ l' ≡ₚ l
            | None => ret !! k = None
            end)
    ∧ msgs a' = ∅
    ∧ market a' = market a ∧ inbox a' = inbox a ∧ out a' = out a
    ∧ ∀ T, get_messages T (a', g') = Ret [] (a', g').
Proof using shuffle_perm.
  intros [Hnd Hkeys]. unfold get_messages_all.
  destruct (shuffle_each order (msgs a) ∅ g) as [[q ret] g'] eqn:Heq.
  eexists _, _, _. split; [done|]. split.
  - intros k. pose proof (shuffle_each_spec order Hnd _ _ _ _ _ _ k Heq) as Hk.
    destruct (msgs a !! k) as [l|] eqn:Hl.
    + rewrite decide_True in Hk by (apply Hkeys; by rewrite Hl). done.
    + rewrite decide_False in Hk.
      * by rewrite Hk, lookup_empty.
      * intros Hin. apply Hkeys in Hin. rewrite Hl in Hin. by destruct Hin.
  - split; [done|]. split; [done|]. split; [done|]. split; [done|].
    intros T. by apply get_messages_absent.
Qed.


(** *** Sending and routing *)

(** X3: in direct mode a sequence of [send] calls always returns and
    leaves in the outbox the entries it held followed by one entry per
    call, in call order, each a [Message] stamped with the sender's own
    name and filed under its topic; nothing else in the store changes. *)
Theorem send_sequence_outbox x calls h a es :
  h !! x = Some a →
  out a = OutList es →
  send_all x calls h =
    Ret tt (<[x := set_out (OutList (es ++ entries_of (agent_name a) calls)) a]> h).
Proof. apply send_all_store. Qed.

(** X4: [_send_multiprocessing] returns exactly when the worker count
    is not zero and the outbox is the bucket dictionary its docstring
    requires; when it raises, the agent is unchanged. *)
Theorem send_multiprocessing_returns_iff to typ msg a :
  ((∃ a', _send_multiprocessing to typ msg a = Ret tt a')
   ↔ processes a ≠ 0 ∧ ∃ b, out a = OutBuckets b)
  ∧ ∀ e a', _send_multiprocessing to typ msg a = Raise e a' → a' = a.
Proof.
  unfold _send_multiprocessing. destruct (Z.eqb_spec (processes a) 0) as [Hz|Hz].
  - split; [|by intros e a' [= _ <-]]. split; [by intros [a' ?]|by intros [? _]].
  - destruct (out a) as [es|b] eqn:Hout.
    + split.
      * split; [|by intros [_ [b ?]]]. intros [a' Hret].
        by destruct (_ && _) in Hret.
      * intros e a' Hraise. destruct (_ && _) in Hraise; by injection Hraise as _ <-.
    + split; [|done]. split; [|by eauto]. intros _. split; [done|]. by exists b.
Qed.

Lemma for_each_app {S X} (body : X → M S unit) (xs ys : list X) (s : S) :
  for_each body (xs ++ ys) s =
    match for_each body xs s with
    | Ret _ s1 => for_each body ys s1
    | Raise e s1 => Raise e s1
    end.
Proof.
  revert s. induction xs as [|x xs IH]; intros s; [done|].
  cbn. unfold mbind. destruct (body x s) as [[] s1|e s1]; [apply IH|done].
Qed.

(** X5: when every outbox entry names a registered receiver,
    [_post_messages] returns; each object of the store then holds in its
    inbox what it held followed by the entries addressed to it, in
    outbox order, the sender's outbox is empty, and nothing else has
    changed. *)
Theorem post_messages_delivers x agents h a es :
  h !! x = Some a →
  out a = OutList es →
  routable agents h es →
  ∃ h', _post_messages x agents h = Ret tt h'
    ∧ ∀ l, h' !! l =
        (λ b, let b' := set_inbox (inbox b ++ addressed agents l es) b in
              if decide (l = x) then set_out (OutList []) b' else b') <$> h !! l.
Proof.
  intros Hx Hout Hok.
  destruct (post_messages_total x agents h a es Hx Hout Hok) as (h' & Hrun).
  exists h'. split; [done|]. by eapply post_messages_store.
Qed.

(** X6: when an outbox entry names an unregistered receiver,
    [_post_messages] raises [KeyError] at that entry: the entries before
    it have been delivered, and the outbox has not been cleared, so it
    still holds them all. *)
Theorem post_messages_unknown_receiver x agents h a sent to env rest :
  h !! x = Some a →
  out a = OutList (sent ++ (to, env) :: rest) →
  routable agents h sent →
  agents !! to = None →
  ∃ h', _post_messages x agents h = Raise KeyError h'
    ∧ (∀ l, h' !! l =
         (λ b, set_inbox (inbox b ++ addressed agents l sent) b) <$> h !! l)
    ∧ out_entries h' x = sent ++ (to, env) :: rest.
Proof.
  intros Hx Hout Hok Hto.
  destruct (post_entries_total agents sent h Hok) as (h1 & Hsent).
  pose proof (post_entries_store _ _ _ _ Hsent) as Hh1.
  exists h1. split; [|split; [done|]].
  - unfold _post_messages, mbind. unfold at_loc at 1. rewrite Hx. cbn.
    rewrite (insert_id h x a Hx), Hout, for_each_app, Hsent. cbn.
    unfold mbind, orraise. by rewrite Hto.
  - unfold out_entries. rewrite Hh1, Hx. cbn. by rewrite Hout.
Qed.

Lemma in_partition_cons n k e entries :
  in_partition n k (e :: entries) =
    (if decide (partition e.1 n = k) then [e] else []) ++ in_partition n k entries.
Proof. unfold in_partition. rewrite filter_cons. by destruct (decide _). Qed.

Lemma set_out_set_out o1 o2 a : set_out o2 (set_out o1 a) = set_out o2 a.
Proof. done. Qed.

Lemma send_all_multiprocessing_spec entries :
  ∀ a b,
    processes a ≠ 0 →
    out a = OutBuckets b →
    ∃ b',
      send_all_multiprocessing entries a = Ret tt (set_out (OutBuckets b') a)
      ∧ (∀ k, default [] (b' !! k) =
              default [] (b !! k) ++ in_partition (processes a) k entries)
      ∧ (∀ k, is_Some (b' !! k) →
              is_Some (b !! k) ∨ in_partition (processes a) k entries ≠ []).
Proof.
  unfold send_all_multiprocessing.
  induction entries as [|[to [typ msg]] entries IH]; intros a b Hn Hout.
  - exists b. split; [|split].
    + cbn. unfold mret. rewrite <- Hout. by destruct a.
    + intros k. by rewrite app_nil_r.
    + intros k Hk. by left.
  - cbn [for_each]. unfold mbind. unfold _send_multiprocessing at 1.
    destruct (Z.eqb_spec (processes a) 0) as [|_]; [done|]. rewrite Hout.
    set (k0 := partition to (processes a)).
    set (b1 := queue_append k0 (to, (typ, msg)) b).
    destruct (IH (set_out (OutBuckets b1) a) b1 Hn eq_refl) as (b' & Hrun & Hq & Hdom).
    exists b'. rewrite Hrun, set_out_set_out. split; [done|]. cbn [processes set_out] in *.
    split.
    + intros k. rewrite Hq, in_partition_cons. cbn [fst]. fold k0.
      unfold b1, queue_append. destruct (decide (k0 = k)) as [<-|Hne].
      * rewrite lookup_insert_eq. cbn. by rewrite <- app_assoc.
      * rewrite lookup_insert_ne by done. done.
    + intros k Hk. apply Hdom in Hk as [Hk|Hk].
      * unfold b1, queue_append in Hk.
        apply lookup_insert_is_Some' in Hk as [<-|Hk]; [|by left].
        right. rewrite in_partition_cons. cbn [fst]. fold k0.
        by rewrite decide_True.
      * right. rewrite in_partition_cons. by destruct (decide _).
Qed.

(** X7: from an empty bucket outbox and a positive worker count, a
    sequence of [_send_multiprocessing] calls followed by
    [_post_messages_multiprocessing] hands over batches in which bucket
    [k] holds exactly the entries whose receiver hashes to partition [k],
    in send order; every bucket key lies in [0, N), and the agent is left
    with a fresh empty bucket outbox and is otherwise unchanged. *)
Theorem partitioned_batches entries a :
  0 < processes a →
  out a = OutBuckets ∅ →
  ∃ b,
    mbind (send_all_multiprocessing entries)
          (λ _, _post_messages_multiprocessing (processes a)) a
      = Ret (OutBuckets b) (set_out (OutBuckets ∅) a)
    ∧ (∀ k, default [] (b !! k) = in_partition (processes a) k entries)
    ∧ (∀ k, is_Some (b !! k) → 0 ≤ k < processes a).
Proof.
  intros Hn Hout.
  destruct (send_all_multiprocessing_spec entries a ∅) as (b & Hrun & Hq & Hdom);
    [lia|done|].
  exists b. unfold mbind. rewrite Hrun. split; [done|]. split.
  - intros k. by rewrite Hq, lookup_empty.
  - intros k Hk. apply Hdom in Hk as [Hk|Hk].
    + rewrite lookup_empty in Hk. by destruct Hk.
    + unfold in_partition in Hk.
      destruct (filter _ entries) as [|e ?] eqn:Hf; [done|].
      assert (e ∈ filter (λ e, partition e.1 (processes a) = k) entries) as He
        by (rewrite Hf; apply list_elem_of_here).
      apply list_elem_of_filter in He as [<- _].
      apply Z.mod_pos_bound. lia.
Qed.


(** *** The clearing pass, entry kinds *)

Lemma dispatch_no_reserved e a :
  no_reserved_queue a →
  match dispatch e a with
  | Ret _ a' | Raise _ a' => no_reserved_queue a'
  end.
Proof.
  intros Hinv. destruct e as [typ msg]. destruct (reserved typ) eqn:Hres.
  - pose proof (dispatch_reserved typ msg a Hres) as Hd.
    destruct (dispatch (typ, msg) a) as [? a'|? a']; destruct Hd as (Hq & _);
      intros T HT; rewrite Hq; by apply Hinv.
  - rewrite dispatch_generic by done. intros T HT. cbn. unfold queue_append.
    rewrite lookup_insert_ne by congruence. by apply Hinv.
Qed.

Lemma processed_no_reserved es a a' :
  processed es a a' → no_reserved_queue a → no_reserved_queue a'.
Proof.
  induction 1 as [|e es a a1 a2 Hd _ IH]; [done|]. intros Hinv. apply IH.
  pose proof (dispatch_no_reserved e a Hinv) as Hstep. by rewrite Hd in Hstep.
Qed.

(** X8: the clearing pass never files anything under a kind code that
    has a branch of its own: if no topic queue has such a key before the
    pass, none has one after it, whether the pass returns or raises, and
    [get_messages] on such a kind returns the empty sequence. *)
Theorem clearing_keeps_reserved_unfiled a :
  no_reserved_queue a →
  match _do_message_clearing a with
  | Ret _ a' | Raise _ a' =>
      no_reserved_queue a'
      ∧ ∀ T g, reserved T = true → get_messages T (a', g) = Ret [] (a', g)
  end.
Proof.
  intros Hinv.
  assert (∀ a', no_reserved_queue a' →
            no_reserved_queue a'
            ∧ ∀ T g, reserved T = true → get_messages T (a', g) = Ret [] (a', g))
    as Hget.
  { intros a' Ha'. split; [done|]. intros T g HT. by apply get_messages_absent, Ha'. }
  unfold _do_message_clearing, mbind, mget, mmodify.
  pose proof (for_each_dispatch (inbox a) a) as Hloop.
  destruct (for_each dispatch (inbox a) a) as [[] a1|e a1].
  - apply Hget. intros T HT. cbn. by apply (processed_no_reserved _ _ _ Hloop).
  - apply Hget. destruct Hloop as (done & e0 & rest & a2 & _ & Hp & He).
    pose proof (dispatch_no_reserved e0 a2 (processed_no_reserved _ _ _ Hp Hinv)) as Hs.
    by rewrite He in Hs.
Qed.

Lemma queue_append_lookup (typ : string) (msg : payload) q (T : string) :
  default [] (queue_append typ msg q !! T) =
    default [] (q !! T) ++ (if decide (typ = T) then [msg] else []).
Proof.
  unfold queue_append. destruct (decide (typ = T)) as [->|Hne].
  - by rewrite lookup_insert_eq.
  - rewrite lookup_insert_ne by done. by rewrite app_nil_r.
Qed.

Lemma for_each_generic_spec es a :
  (∀ typ msg, (typ, msg) ∈ es → reserved typ = false) →
  ∃ a', for_each dispatch es a = Ret tt a'
    ∧ market a' = market a ∧ inbox a' = inbox a ∧ out a' = out a
    ∧ ∀ T, default [] (msgs a' !! T) = default [] (msgs a !! T) ++ of_kind T es.
Proof.
  revert a. induction es as [|[typ msg] es IH]; intros a Hgen.
  - exists a. repeat split; try done. intros T. by rewrite app_nil_r.
  - cbn [for_each]. unfold mbind.
    rewrite dispatch_generic by (eapply Hgen, list_elem_of_here).
    destruct (IH (set_msgs (queue_append typ msg (msgs a)) a))
      as (a' & Hrun & Hm & Hi & Ho & Hq).
    { intros typ' msg' Hin. eapply Hgen. by apply list_elem_of_further. }
    exists a'. split; [done|]. split; [done|]. split; [done|]. split; [done|].
    intros T. rewrite Hq. cbn [msgs set_msgs]. rewrite queue_append_lookup.
    change ((typ, msg) :: es) with ([(typ, msg)] ++ es).
    rewrite of_kind_app, app_assoc. cbn. by rewrite app_nil_r.
Qed.

(** X9: on an inbox that holds only kinds without a branch of their
    own, the clearing pass returns, empties the inbox, leaves the market
    state and the outbox alone, and appends to the queue of every topic
    the payloads that arrived under it, in arrival order. *)
Theorem clearing_generic_inbox a :
  (∀ typ msg, (typ, msg) ∈ inbox a → reserved typ = false) →
  ∃ a', _do_message_clearing a = Ret tt a'
    ∧ inbox a' = []
    ∧ market a' = market a ∧ out a' = out a
    ∧ ∀ T, default [] (msgs a' !! T) = default [] (msgs a !! T) ++ of_kind T (inbox a).
Proof.
  intros Hgen. unfold _do_message_clearing, mbind, mget, mmodify.
  destruct (for_each_generic_spec (inbox a) a Hgen) as (a1 & -> & Hm & _ & Ho & Hq).
  eexists. split; [done|]. by cbn.
Qed.

(** X10: an entry that [send] files under one of the kinds whose branch
    reads an attribute of the payload makes the branch raise
    [AttributeError], since a [Message] has only its four slots; the
    agent is unchanged. *)
Theorem attribute_kind_message_raises typ m a :
  typ ∈ attribute_kinds →
  dispatch (typ, PMessage m) a = Raise AttributeError a.
Proof.
  unfold attribute_kinds. intros Hin. destruct a.
  repeat (apply elem_of_cons in Hin as [->|Hin]; [reflexivity|]).
  by apply elem_of_nil in Hin.
Qed.

Lemma item_message_tuple m items i :
  content m = VTuple items → item (PMessage m) i = item (PTuple items) i.
Proof. intros Hc. cbn. by rewrite Hc. Qed.

(** X11: for the two kinds whose branch only subscripts the payload, a
    [Message] whose content is a tuple is handled exactly like the tuple
    itself, through [Message.__getitem__]. *)
Theorem message_wraps_tuple m items a :
  content m = VTuple items →
  dispatch ("!d", PMessage m) a = dispatch ("!d", PTuple items) a
  ∧ dispatch ("_g", PMessage m) a = dispatch ("_g", PTuple items) a.
Proof.
  intros Hc. split.
  - change (on_market (clear_contract_cancel (PMessage m)) a =
            on_market (clear_contract_cancel (PTuple items)) a).
    unfold clear_contract_cancel, delete_contract.
    by rewrite !(item_message_tuple m items _ Hc).
  - change (on_market (clear_free_good (PMessage m)) a =
            on_market (clear_free_good (PTuple items)) a).
    unfold clear_free_good.
    by rewrite !(item_message_tuple m items _ Hc).
Qed.


Lemma table_get_dd_touch {V} good (t : gmap string (gmap Z V)) g j :
  table_get g j (dd_touch good ∅ t) = table_get g j t.
Proof.
  unfold table_get, dd_touch. destruct (t !! good) eqn:Ht; [done|].
  destruct (decide (g = good)) as [->|Hg].
  - by rewrite lookup_insert_eq, Ht.
  - by rewrite lookup_insert_ne.
Qed.

Lemma table_get_total_len {V} good i (v : V) (t : gmap string (gmap Z V)) :
  table_get good i t = Some v → total_len size t ≠ 0%nat.
Proof.
  unfold table_get. intros Hv Hzero.
  destruct (t !! good) as [inner|] eqn:Hg; cbn in Hv; [|by rewrite lookup_empty in Hv].
  pose proof (proj1 (total_len_zero size t) Hzero good inner Hg) as Hsize.
  apply map_size_empty_iff in Hsize. subst inner. by rewrite lookup_empty in Hv.
Qed.

(** X12: a buy or sell offer is recorded under [good][id] of its own
    table, replacing what that slot held and touching no other slot nor
    the other table; an agent that leaves it there fails the end-of-round
    check, with the text about offers made before the round when a given
    offer is stale and the text about unretrieved offers otherwise. *)
Theorem open_offer_recorded buy a msg good i :
  attr_good msg = Some good →
  attr_id msg = Some i →
  ∃ a', dispatch (offer_kind buy, msg) a = Ret tt a'
    ∧ table_get good i (offer_table buy (market a')) = Some msg
    ∧ (∀ g j, (g, j) ≠ (good, i) →
         table_get g j (offer_table buy (market a')) =
         table_get g j (offer_table buy (market a)))
    ∧ offer_table (negb buy) (market a') = offer_table (negb buy) (market a)
    ∧ _check_for_lost_messages a' =
        Raise (Exception (if has_stale_offer (market a')
                          then stale_text (market a')
                          else open_offers_text (market a'))) a'.
Proof.
  intros Hgood Hid.
  assert (∀ a', table_get good i (offer_table buy (market a')) = Some msg →
            _check_for_lost_messages a' =
              Raise (Exception (if has_stale_offer (market a')
                                then stale_text (market a')
                                else open_offers_text (market a'))) a') as Haudit.
  { intros a' Hslot.
    destruct (audit_cases a')
      as [(Hst & Hr)|[(Hst & _ & Hr)|[(_ & Hb & Hs & _)|(_ & Hb & Hs & _)]]].
    - by rewrite Hst.
    - by rewrite Hst.
    - exfalso. destruct buy; by eapply table_get_total_len.
    - exfalso. destruct buy; by eapply table_get_total_len. }
  destruct buy.
  - change (dispatch (offer_kind true, msg)) with
      (on_market (clear_offer open_offers_buy set_open_offers_buy msg)).
    unfold clear_offer. unfold_monad. rewrite Hgood. cbn. rewrite Hid. cbn.
    eexists. split; [done|].
    assert (table_get good i (offer_table true (market
              (set_market (set_open_offers_buy (table_set good i msg
                 (dd_touch good ∅ (open_offers_buy (market a)))) (market a)) a)))
            = Some msg) as Hslot
      by (cbn; rewrite table_get_set; by rewrite decide_True).
    split; [done|]. split; [|split; [done|by apply Haudit]].
    intros g j Hne. cbn. rewrite table_get_set, decide_False by done.
    apply table_get_dd_touch.
  - change (dispatch (offer_kind false, msg)) with
      (on_market (clear_offer open_offers_sell set_open_offers_sell msg)).
    unfold clear_offer. unfold_monad. rewrite Hgood. cbn. rewrite Hid. cbn.
    eexists. split; [done|].
    assert (table_get good i (offer_table false (market
              (set_market (set_open_offers_sell (table_set good i msg
                 (dd_touch good ∅ (open_offers_sell (market a)))) (market a)) a)))
            = Some msg) as Hslot
      by (cbn; rewrite table_get_set; by rewrite decide_True).
    split; [done|]. split; [|split; [done|by apply Haudit]].
    intros g j Hne. cbn. rewrite table_get_set, decide_False by done.
    apply table_get_dd_touch.
Qed.

Lemma credit_touch_lookup good amount (inv : gmap string Z) g :
  credit good amount (dd_touch good 0 inv) !! g =
    if decide (g = good) then Some (default 0 (inv !! good) + amount) else inv !! g.
Proof.
  unfold credit, dd_touch. destruct (decide (g = good)) as [->|Hne].
  - rewrite lookup_insert_eq. destruct (inv !! good) eqn:Hg.
    + by rewrite Hg.
    + by rewrite lookup_insert_eq.
  - rewrite lookup_insert_ne by done. destruct (inv !! good); [done|].
    by rewrite lookup_insert_ne.
Qed.

(** X13: a free transfer [(good, amount)] adds the amount to the
    inventory of that good, counting a good not held as 0, and leaves
    every other good as it was. *)
Theorem free_good_credits a msg good amount :
  item msg 0 = inr (VStr good) →
  item msg 1 = inr (VInt amount) →
  ∃ a', dispatch ("_g", msg) a = Ret tt a'
    ∧ inventory (market a') !! good =
        Some (default 0 (inventory (market a) !! good) + amount)
    ∧ (∀ g, g ≠ good → inventory (market a') !! g = inventory (market a) !! g)
    ∧ msgs a' = msgs a ∧ inbox a' = inbox a.
Proof.
  intros H0 H1.
  change (dispatch ("_g", msg)) with (on_market (clear_free_good msg)).
  unfold clear_free_good. unfold_monad. rewrite H0. cbn. rewrite H1. cbn.
  eexists. split; [done|]. cbn. split; [|split; [|done]].
  - rewrite credit_touch_lookup. by rewrite decide_True.
  - intros g Hne. rewrite credit_touch_lookup. by rewrite decide_False.
Qed.

(** X14: a contract-accept entry whose id matches no made offer raises
    [KeyError] and changes nothing. *)
Theorem contract_accept_unknown a msg i :
  attr_id msg = Some i →
  contract_offers_made (market a) !! i = None →
  dispatch ("_ac", msg) a = Raise KeyError a.
Proof.
  intros Hid Hnone.
  change (dispatch ("_ac", msg)) with (on_market (clear_contract_accept msg)).
  unfold clear_contract_accept. unfold_monad. rewrite Hid. cbn. rewrite Hnone. cbn.
  by rewrite set_market_same.
Qed.

(** X15: a payment/delivery entry for a contract that is not in the
    track the payer test selects raises [KeyError] after the inventory
    has been credited: the credit stays, and no contract of either track
    has changed. *)
Theorem contract_event_unknown a msg c :
  attr_contract msg = Some c →
  table_get (contract_good c) (contract_id c)
    (if decide ((pay_group c, pay_id c) = agent_name a)
     then contracts_pay (market a) else contracts_deliver (market a)) = None →
  ∃ a', dispatch ("_dp", msg) a = Raise KeyError a'
    ∧ inventory (market a') =
        (if decide ((pay_group c, pay_id c) = agent_name a)
         then credit (contract_good c) (quantity c) (inventory (market a))
         else credit "money" (quantity c * price c) (inventory (market a)))
    ∧ (∀ g j, table_get g j (contracts_pay (market a')) =
              table_get g j (contracts_pay (market a)))
    ∧ (∀ g j, table_get g j (contracts_deliver (market a')) =
              table_get g j (contracts_deliver (market a))).
Proof.
  intros Hc Hnone.
  change (dispatch ("_dp", msg)) with (on_market (clear_contract_event msg)).
  unfold clear_contract_event. unfold_monad. rewrite Hc. cbn.
  rewrite is_payer_decide.
  destruct (decide ((pay_group c, pay_id c) = agent_name a)) as [Hp|Hp].
  - rewrite bool_decide_eq_true_2 by done. cbn.
    rewrite table_get_dd_touch, Hnone. cbn.
    eexists. split; [done|]. cbn. split; [done|]. split; [|done].
    intros g j. apply table_get_dd_touch.
  - rewrite bool_decide_eq_false_2 by done. cbn.
    rewrite table_get_dd_touch, Hnone. cbn.
    eexists. split; [done|]. cbn. split; [done|]. split; [done|].
    intros g j. apply table_get_dd_touch.
Qed.

(** X16: a contract-cancel entry that references a contract which is
    not in the track its discriminator selects raises [KeyError]; no
    contract of either track has changed. *)
Theorem contract_cancel_unknown a msg pay_track good i :
  item msg 0 = inr (VStr (discriminator pay_track)) →
  item msg 1 = inr (VStr good) →
  item msg 2 = inr (VInt i) →
  table_get good i (track_of pay_track (market a)) = None →
  ∃ a', dispatch ("!d", msg) a = Raise KeyError a'
    ∧ (∀ g j, table_get g j (contracts_pay (market a')) =
              table_get g j (contracts_pay (market a)))
    ∧ (∀ g j, table_get g j (contracts_deliver (market a')) =
              table_get g j (contracts_deliver (market a))).
Proof.
  intros H0 H1 H2 Hnone.
  change (dispatch ("!d", msg)) with (on_market (clear_contract_cancel msg)).
  unfold clear_contract_cancel, delete_contract. unfold_monad.
  rewrite H0. destruct pay_track; cbn in *.
  - rewrite H1. cbn. rewrite H2. cbn. rewrite table_get_dd_touch, Hnone. cbn.
    eexists. split; [done|]. cbn. split; [|done].
    intros g j. apply table_get_dd_touch.
  - rewrite H1. cbn. rewrite H2. cbn. rewrite table_get_dd_touch, Hnone. cbn.
    eexists. split; [done|]. cbn. split; [done|].
    intros g j. apply table_get_dd_touch.
Qed.



(** *** The auditor *)

Lemma audit_clean_zero a :
  audit_clean a ↔
    has_stale_offer (market a) = false
    ∧ total_len size (open_offers_buy (market a)) = 0%nat
    ∧ total_len size (open_offers_sell (market a)) = 0%nat
    ∧ total_len length (msgs a) = 0%nat.
Proof.
  unfold audit_clean.
  rewrite has_stale_offer_false, !total_len_zero.
  split; intros (Hs & Hb & Hl & Hq); (split; [done|]); repeat split.
  - intros k v Hk. by rewrite (Hb _ _ Hk).
  - intros k v Hk. by rewrite (Hl _ _ Hk).
  - intros k v Hk. by rewrite (Hq _ _ Hk).
  - intros k v Hk. by apply map_size_empty_iff, (Hb k).
  - intros k v Hk. by apply map_size_empty_iff, (Hl k).
  - intros k v Hk. by apply length_zero_iff_nil, (Hq k).
Qed.

Lemma audit_returns_zero a :
  _check_for_lost_messages a = Ret tt a ↔
    has_stale_offer (market a) = false
    ∧ total_len size (open_offers_buy (market a)) = 0%nat
    ∧ total_len size (open_offers_sell (market a)) = 0%nat
    ∧ total_len length (msgs a) = 0%nat.
Proof.
  split.
  - intros Hret. destruct (audit_outcome a) as [(text & Hr)|(_ & ?)]; [|done].
    rewrite Hret in Hr. discriminate Hr.
  - intros (Hs & Hb & Hl & Hq). unfold _check_for_lost_messages.
    by rewrite Hs, Hb, Hl, Hq.
Qed.

(** X18: the auditor returns normally exactly when no given offer was
    made before the current round and every open-offer table and topic
    queue is empty, tables that hold only empty inner dictionaries
    included; it never changes the agent. *)
Theorem audit_returns_iff a :
  (_check_for_lost_messages a = Ret tt a ↔ audit_clean a)
  ∧ match _check_for_lost_messages a with
    | Ret _ a' | Raise _ a' => a' = a
    end.
Proof.
  split.
  - by rewrite audit_returns_zero, audit_clean_zero.
  - destruct (audit_outcome a) as [(text & ->)|(-> & _)]; done.
Qed.

(** X19: a given offer made before the current round makes the auditor
    raise the error about unretrieved offers, named [group_id], before
    any table or queue is looked at. *)
Theorem audit_stale_offer_first a k o :
  given_offers (market a) !! k = Some o →
  offer_made o < round (market a) →
  _check_for_lost_messages a = Raise (Exception (stale_text (market a))) a.
Proof.
  intros Hk Hlt. unfold _check_for_lost_messages.
  destruct (has_stale_offer (market a)) eqn:Hs; [done|].
  pose proof (proj1 (has_stale_offer_false _) Hs k o Hk). lia.
Qed.

Lemma of_kind_same T es :
  (∀ typ msg, (typ, msg) ∈ es → typ = T) → of_kind T es = es.*2.
Proof.
  induction es as [|[typ msg] es IH]; intros Hall; [done|].
  change ((typ, msg) :: es) with ([(typ, msg)] ++ es).
  rewrite of_kind_app, IH.
  - cbn. rewrite decide_True; [done|]. eapply Hall, list_elem_of_here.
  - intros typ' msg' Hin. eapply Hall. by apply list_elem_of_further.
Qed.

Lemma of_kind_other T T' es :
  (∀ typ msg, (typ, msg) ∈ es → typ = T) → T' ≠ T → of_kind T' es = [].
Proof.
  induction es as [|[typ msg] es IH]; intros Hall Hne; [done|].
  change ((typ, msg) :: es) with ([(typ, msg)] ++ es).
  rewrite of_kind_app, IH; [|intros typ' msg' Hin; eapply Hall;
    by apply list_elem_of_further|done].
  cbn. rewrite decide_False; [done|].
  rewrite (Hall typ msg) by apply list_elem_of_here. congruence.
Qed.

(** X20: an agent that passes the end-of-round check and then receives
    messages under one ordinary topic fails the check after the clearing
    pass, with the error about unretrieved messages, and passes it again
    once it has called [get_messages] for that topic, which returns the
    received payloads in some order. *)
Theorem retrieval_settles_audit T a g :
  reserved T = false →
  _check_for_lost_messages a = Ret tt a →
  (∀ typ msg, (typ, msg) ∈ inbox a → typ = T) →
  ∃ a1,
    _do_message_clearing a = Ret tt a1
    ∧ (inbox a ≠ [] →
       _check_for_lost_messages a1 = Raise (Exception (unread_text (market a1))) a1)
    ∧ ∃ l a2 g',
        get_messages T (a1, g) = Ret l (a2, g')
        ∧ l ≡ₚ (inbox a).*2
        ∧ _check_for_lost_messages a2 = Ret tt a2.
Proof using shuffle_perm.
  intros HT Hclean Hkind.
  apply audit_returns_zero in Hclean as (Hs & Hb & Hl & Hq).
  destruct (for_each_generic_spec (inbox a) a) as (a0 & Hrun & Hm & _ & _ & Hq0).
  { intros typ msg Hin. by rewrite (Hkind typ msg Hin). }
  assert (∀ k, default [] (msgs a0 !! k) = of_kind k (inbox a)) as Hq1.
  { intros k. rewrite Hq0. destruct (msgs a !! k) as [q|] eqn:Hk; [|done].
    pose proof (proj1 (total_len_zero length (msgs a)) Hq k q Hk) as Hlen.
    apply length_zero_iff_nil in Hlen. by subst q. }
  exists (set_inbox [] a0). split.
  { unfold _do_message_clearing, mbind, mget, mmodify. by rewrite Hrun. }
  split.
  - intros Hne. unfold _check_for_lost_messages. cbn [market set_inbox msgs].
    rewrite Hm, Hs, Hb, Hl. cbn.
    destruct (Nat.eqb_spec (total_len length (msgs a0)) 0) as [Hz|_]; [|done].
    exfalso. apply Hne.
    assert (default [] (msgs a0 !! T) = []) as Hnil.
    { destruct (msgs a0 !! T) as [q|] eqn:Hk; [|done].
      apply length_zero_iff_nil. by eapply (proj1 (total_len_zero _ _) Hz). }
    rewrite Hq1, of_kind_same in Hnil by done.
    by apply fmap_nil_inv in Hnil.
  - destruct (get_messages_frame T (set_inbox [] a0) g)
      as (l & a2 & g' & Hget & Hperm & Hq2 & Hm2 & _ & _).
    exists l, a2, g'. split; [done|]. split.
    + rewrite Hperm. cbn [msgs set_inbox]. by rewrite Hq1, of_kind_same.
    + apply audit_returns_zero. rewrite Hm2. cbn [market set_inbox].
      rewrite Hm. split; [done|]. split; [done|]. split; [done|].
      apply total_len_zero. intros k v Hk. rewrite Hq2 in Hk.
      cbn [msgs set_inbox] in Hk.
      destruct (decide (k = T)) as [->|Hne]; [by rewrite lookup_delete_eq in Hk|].
      rewrite lookup_delete_ne in Hk by done.
      pose proof (Hq1 k) as Hk1. rewrite Hk in Hk1. cbn in Hk1.
      by rewrite Hk1, (of_kind_other T k).
Qed.

End Messenger.

(** ** The properties on the small economy *)

Lemma sample_shuffle_perm (l : list payload) (g : nat) : (sample_shuffle l g).1 ≡ₚ l.
Proof. apply reverse_Permutation. Qed.

(** C1, on a round in which two agents send: the household retrieves
    the three envelopes addressed to it under ['m']. *)
Lemma round_trip_witness :
  ∃ h3,
    round_to_clearing sample_receive_accept sample_silent sample_silent sample_silent
      sample_registry sample_plan 1%nat sample_store = Ret tt h3
    ∧ ∃ a3 l a4 g',
        h3 !! 1%nat = Some a3
        ∧ get_messages nat sample_shuffle "m" (a3, 0%nat) = Ret l (a4, g')
        ∧ l ≡ₚ envelopes_for sample_store sample_registry 1%nat "m" sample_plan
        ∧ get_messages nat sample_shuffle "m" (a4, g') = Ret [] (a4, g').
Proof.
  eexists. split; [vm_compute; reflexivity|].
  apply (round_trip sample_receive_accept sample_silent sample_silent sample_silent
           nat sample_shuffle sample_shuffle_perm
           sample_registry sample_plan 1%nat "m" sample_store household).
  - reflexivity.
  - apply (bool_decide_unpack _). vm_compute. reflexivity.
  - intros x Hx. apply elem_of_cons in Hx as [->|Hx].
    + exists firm. split; reflexivity.
    + apply elem_of_cons in Hx as [->|Hx].
      * exists household. split; reflexivity.
      * by apply elem_of_nil in Hx.
  - reflexivity.
  - reflexivity.
  - reflexivity.
  - vm_compute. reflexivity.
Defined.

(** C1 as stated fails when the queue still holds an envelope of an
    earlier round: one greeting is sent, two envelopes are returned. *)
Lemma round_trip_backlog_counterexample :
  ∃ h3 a3 st,
    round_to_clearing sample_receive_accept sample_silent sample_silent sample_silent
      sample_registry one_greeting 1%nat backlog_store = Ret tt h3
    ∧ h3 !! 1%nat = Some a3
    ∧ get_messages nat sample_shuffle "m" (a3, 0%nat) = Ret [hello; old_greeting] st
    ∧ envelopes_for backlog_store sample_registry 1%nat "m" one_greeting = [hello]
    ∧ ¬ [hello; old_greeting] ≡ₚ [hello].
Proof.
  eexists _, _, _. split; [vm_compute; reflexivity|].
  split; [vm_compute; reflexivity|].
  split; [vm_compute; reflexivity|].
  split; [vm_compute; reflexivity|].
  intros Hperm. apply Permutation_length in Hperm. discriminate Hperm.
Qed.

(** C2, at both sides of the bread contract: the household pays, so it
    files the contract in the pay track and the firm in the deliver
    track. *)
Lemma contract_accept_filed_once_witness :
  (∃ a',
     dispatch sample_receive_accept sample_silent sample_silent sample_silent
       ("_ac", PContract bread_contract) firm_offering = Ret tt a'
     ∧ contract_offers_made (market a') =
         delete 7 (contract_offers_made (market firm_offering))
     ∧ table_get "BRD" 7 (contracts_deliver (market a')) = Some bread_contract
     ∧ (∀ g j, (g, j) ≠ ("BRD", 7) →
          table_get g j (contracts_deliver (market a')) =
          table_get g j (contracts_deliver (market firm_offering)))
     ∧ contracts_pay (market a') = contracts_pay (market firm_offering))
  ∧ (∃ a',
       dispatch sample_receive_accept sample_silent sample_silent sample_silent
         ("_ac", PContract bread_contract) household_offering = Ret tt a'
       ∧ contract_offers_made (market a') =
           delete 7 (contract_offers_made (market household_offering))
       ∧ table_get "BRD" 7 (contracts_pay (market a')) = Some bread_contract
       ∧ (∀ g j, (g, j) ≠ ("BRD", 7) →
            table_get g j (contracts_pay (market a')) =
            table_get g j (contracts_pay (market household_offering)))
       ∧ contracts_deliver (market a') = contracts_deliver (market household_offering)).
Proof.
  split.
  - apply (contract_accept_filed_once sample_receive_accept sample_silent sample_silent
             sample_silent firm_offering (PContract bread_contract) 7 bread_contract).
    + reflexivity.
    + reflexivity.
  - apply (contract_accept_filed_once sample_receive_accept sample_silent sample_silent
             sample_silent household_offering (PContract bread_contract) 7
             bread_contract).
    + reflexivity.
    + reflexivity.
Defined.

(** C3, at both sides of the bread contract: the household is credited
    5 of bread and logs the delivery, the firm is credited 5 * 2 of money
    and logs the payment. *)
Lemma contract_event_settles_witness :
  (∃ a',
     dispatch sample_receive_accept sample_silent sample_silent sample_silent
       ("_dp", PContract bread_contract) household_paying = Ret tt a'
     ∧ default 0 (inventory (market a') !! "BRD") =
         default 0 (inventory (market household_paying) !! "BRD") + 5
     ∧ (∀ g, g ≠ "BRD" →
          inventory (market a') !! g = inventory (market household_paying) !! g)
     ∧ table_get "BRD" 7 (contracts_pay (market a')) =
         Some (append_delivered 3 bread_contract)
     ∧ delivered (append_delivered 3 bread_contract) = [3]
     ∧ contracts_deliver (market a') = contracts_deliver (market household_paying))
  ∧ (∃ a',
       dispatch sample_receive_accept sample_silent sample_silent sample_silent
         ("_dp", PContract bread_contract) firm_delivering = Ret tt a'
       ∧ default 0 (inventory (market a') !! "money") =
           default 0 (inventory (market firm_delivering) !! "money") + 5 * 2
       ∧ (∀ g, g ≠ "money" →
            inventory (market a') !! g = inventory (market firm_delivering) !! g)
       ∧ table_get "BRD" 7 (contracts_deliver (market a')) =
           Some (append_paid 3 bread_contract)
       ∧ paid (append_paid 3 bread_contract) = [3]
       ∧ contracts_pay (market a') = contracts_pay (market firm_delivering)).
Proof.
  split.
  - apply (contract_event_settles sample_receive_accept sample_silent sample_silent
             sample_silent household_paying (PContract bread_contract)
             bread_contract bread_contract).
    + reflexivity.
    + reflexivity.
  - apply (contract_event_settles sample_receive_accept sample_silent sample_silent
             sample_silent firm_delivering (PContract bread_contract)
             bread_contract bread_contract).
    + reflexivity.
    + reflexivity.
Defined.

(** C6, at both sides of the bread contract: ['r'] removes it from the
    pay track of the household, ['d'] from the deliver track of the
    firm. *)
Lemma contract_cancel_removes_one_witness :
  (∃ a',
     dispatch sample_receive_accept sample_silent sample_silent sample_silent
       ("!d", PTuple [VStr "r"; VStr "BRD"; VInt 7]) household_paying = Ret tt a'
     ∧ table_get "BRD" 7 (contracts_pay (market a')) = None
     ∧ (∀ g j, (g, j) ≠ ("BRD", 7) →
          table_get g j (contracts_pay (market a')) =
          table_get g j (contracts_pay (market household_paying)))
     ∧ contracts_deliver (market a') = contracts_deliver (market household_paying))
  ∧ (∃ a',
       dispatch sample_receive_accept sample_silent sample_silent sample_silent
         ("!d", PTuple [VStr "d"; VStr "BRD"; VInt 7]) firm_delivering = Ret tt a'
       ∧ table_get "BRD" 7 (contracts_deliver (market a')) = None
       ∧ (∀ g j, (g, j) ≠ ("BRD", 7) →
            table_get g j (contracts_deliver (market a')) =
            table_get g j (contracts_deliver (market firm_delivering)))
       ∧ contracts_pay (market a') = contracts_pay (market firm_delivering)).
Proof.
  split.
  - apply (contract_cancel_removes_one sample_receive_accept sample_silent sample_silent
             sample_silent household_paying (PTuple [VStr "r"; VStr "BRD"; VInt 7])
             true "BRD" 7 bread_contract).
    + reflexivity.
    + reflexivity.
    + reflexivity.
    + reflexivity.
  - apply (contract_cancel_removes_one sample_receive_accept sample_silent sample_silent
             sample_silent firm_delivering (PTuple [VStr "d"; VStr "BRD"; VInt 7])
             false "BRD" 7 bread_contract).
    + reflexivity.
    + reflexivity.
    + reflexivity.
    + reflexivity.
Defined.

(** C10, at the household: a cancel with discriminator ['x'] leaves the
    agent as it was. *)
Lemma contract_cancel_other_discriminator_witness :
  dispatch sample_receive_accept sample_silent sample_silent sample_silent
    ("!d", PTuple [VStr "x"; VStr "BRD"; VInt 7]) household_paying
  = Ret tt household_paying.
Proof.
  apply (contract_cancel_other_discriminator sample_receive_accept sample_silent
           sample_silent sample_silent household_paying
           (PTuple [VStr "x"; VStr "BRD"; VInt 7]) (VStr "x")).
  - reflexivity.
  - reflexivity.
  - reflexivity.
Defined.

(** C7, with four workers: the household's partition is in range and
    the entry lands in its bucket. *)
Lemma partition_stable_witness :
  0 ≤ partition sample_hash ("household", 1) 4 < 4
  ∧ ∃ a',
      _send_multiprocessing sample_hash ("household", 1) "m" hello firm_parallel
        = Ret tt a'
      ∧ ∃ b', out a' = OutBuckets b'
        ∧ b' !! partition sample_hash ("household", 1) 4 =
            Some (default [] ((∅ : gmap Z (list (name * envelope)))
                                !! partition sample_hash ("household", 1) 4)
                  ++ [(("household", 1), ("m", hello))])
        ∧ ∀ k, k ≠ partition sample_hash ("household", 1) 4 →
               b' !! k = (∅ : gmap Z (list (name * envelope))) !! k.
Proof.
  destruct (partition_stable sample_hash ("household", 1) 4) as [Hrange Hsend].
  - lia.
  - split; [exact Hrange|].
    apply (Hsend firm_parallel "m" hello ∅); reflexivity.
Defined.

(** C8, at a fresh agent. *)
Lemma get_messages_unknown_topic_witness :
  ∃ st, get_messages nat sample_shuffle "quote_sell" (household, 0%nat) = Ret [] st.
Proof.
  apply (get_messages_unknown_topic nat sample_shuffle "quote_sell" household 0%nat).
  reflexivity.
Defined.

(** C9, at a fresh agent: the mapping is the same after the call. *)
Lemma get_messages_unknown_topic_state_witness :
  ∃ l a' g',
    get_messages nat sample_shuffle "quote_sell" (household, 0%nat) = Ret l (a', g')
    ∧ msgs a' = msgs household ∧ msgs a' !! "quote_sell" = None.
Proof.
  apply (get_messages_unknown_topic_state nat sample_shuffle "quote_sell"
           household 0%nat).
  reflexivity.
Defined.

(** C9 as stated fails: after the call on a topic never seen the
    mapping holds no entry for it, empty or not. *)
Lemma get_messages_no_entry_left_counterexample :
  ∃ a' g',
    msgs household !! "quote_sell" = None
    ∧ get_messages nat sample_shuffle "quote_sell" (household, 0%nat)
        = Ret [] (a', g')
    ∧ msgs a' !! "quote_sell" ≠ Some [].
Proof.
  exists household, 0%nat. split; [reflexivity|].
  split; [vm_compute; reflexivity|]. discriminate.
Qed.

(** C5 as stated fails: an ['_ac'] entry that carries a [Message] makes
    the pass raise, and the inbox still holds the entry afterwards. *)
Lemma clearing_raise_counterexample :
  inbox household_confused = [stray_accept]
  ∧ _do_message_clearing sample_receive_accept sample_silent sample_silent
      sample_silent household_confused
    = Raise AttributeError household_confused.
Proof. split; [reflexivity|]. vm_compute. reflexivity. Qed.

(** C4, at household 1 with an unread greeting, which the audit reports
    under its name, and at a fresh agent, which passes. *)
Lemma lost_message_audit_witness :
  end_of_round_audit household_with_backlog
  = Raise (Exception
      "(household, 1): There are messages an agent send that have not been retrieved in this round get_messages(.)")
      household_with_backlog
  ∧ end_of_round_audit household = Ret tt household.
Proof.
  split.
  - destruct (proj1 (lost_message_audit household_with_backlog eq_refl))
      as (text & Hraise & [(Hstale & _)|[(_ & Hopen & _)|(_ & _ & _ & Htext)]]).
    + right. right. exists "m", [old_greeting]. split; [reflexivity|discriminate].
    + destruct Hstale as (k & o & Hk & _). cbn in Hk.
      rewrite lookup_empty in Hk. discriminate Hk.
    + destruct Hopen as [(g & t & Hg & _)|(g & t & Hg & _)]; cbn in Hg;
        rewrite lookup_empty in Hg; discriminate Hg.
    + rewrite Htext in Hraise. exact Hraise.
  - apply (lost_message_audit household); [reflexivity|..];
      intros k v Hk; cbn in Hk; rewrite lookup_empty in Hk; discriminate Hk.
Defined.

(** ** The further properties on the small economy *)

(** X1, at the household holding two topics. *)
Lemma get_messages_total_witness :
  ∃ l a' g',
    get_messages nat sample_shuffle "m" (household_two_topics, 0%nat) = Ret l (a', g')
    ∧ l ≡ₚ default [] (msgs household_two_topics !! "m")
    ∧ msgs a' = delete "m" (msgs household_two_topics)
    ∧ market a' = market household_two_topics
    ∧ inbox a' = inbox household_two_topics
    ∧ out a' = out household_two_topics.
Proof.
  apply (get_messages_total nat sample_shuffle sample_shuffle_perm "m"
           household_two_topics 0%nat).
Defined.

(** X2, at the household holding two topics, the quote request filed
    first. *)
Lemma get_messages_all_returns_witness :
  ∃ ret a' g',
    get_messages_all nat sample_shuffle ["quote_sell"; "m"]
      (household_two_topics, 0%nat) = Ret ret (a', g')
    ∧ (∀ k, match msgs household_two_topics !! k with
            | Some l => ∃ l', ret !! k = Some l' ∧ l' ≡ₚ l
            | None => ret !! k = None
            end)
    ∧ msgs a' = ∅
    ∧ market a' = market household_two_topics
    ∧ inbox a' = inbox household_two_topics
    ∧ out a' = out household_two_topics
    ∧ ∀ T, get_messages nat sample_shuffle T (a', g') = Ret [] (a', g').
Proof.
  apply (get_messages_all_returns nat sample_shuffle sample_shuffle_perm
           ["quote_sell"; "m"] household_two_topics 0%nat).
  split.
  - apply (bool_decide_unpack _). vm_compute. reflexivity.
  - intros k. cbn [msgs household_two_topics set_msgs].
    rewrite !lookup_insert_is_Some', lookup_empty, !elem_of_cons, elem_of_nil.
    split.
    + intros [->|[->|[]]]; [left|right; left]; reflexivity.
    + intros [<-|[<-|Hnone]]; [left|right; left|]; try reflexivity.
      destruct Hnone as [? Hnone]. discriminate Hnone.
Defined.

(** X3, at the firm making three calls. *)
Lemma send_sequence_outbox_witness :
  send_all 0%nat
    [ (("household", 1), "m", VStr "hello");
      (("household", 1), "quote_sell", VTuple [VStr "BRD"; VInt 5]);
      (("household", 1), "m", VStr "hello") ] sample_store
  = Ret tt (<[0%nat := set_out (OutList
               ([] ++ entries_of (agent_name firm)
                        [ (("household", 1), "m", VStr "hello");
                          (("household", 1), "quote_sell", VTuple [VStr "BRD"; VInt 5]);
                          (("household", 1), "m", VStr "hello") ])) firm]>
              sample_store).
Proof.
  apply (send_sequence_outbox 0%nat _ sample_store firm []).
  - reflexivity.
  - reflexivity.
Defined.

(** X4, at the firm in multiprocessing mode. *)
Lemma send_multiprocessing_returns_iff_witness :
  ∃ a', _send_multiprocessing sample_hash ("household", 1) "m" hello firm_parallel
        = Ret tt a'.
Proof.
  apply (proj1 (send_multiprocessing_returns_iff sample_hash ("household", 1) "m"
                  hello firm_parallel)).
  split.
  - discriminate.
  - exists ∅. reflexivity.
Defined.

(** X5, at the firm sending to the household and to itself. *)
Lemma post_messages_delivers_witness :
  ∃ h', _post_messages 0%nat sample_registry sending_store = Ret tt h'
    ∧ ∀ l, h' !! l =
        (λ b, let b' := set_inbox
                (inbox b ++ addressed sample_registry l
                   [(("household", 1), ("m", hello));
                    (("firm", 0), ("memo", old_greeting));
                    (("household", 1), ("quote_sell", quote_request))]) b in
              if decide (l = 0%nat) then set_out (OutList []) b' else b')
        <$> sending_store !! l.
Proof.
  apply (post_messages_delivers 0%nat sample_registry sending_store firm_sending).
  - reflexivity.
  - reflexivity.
  - intros to env Hin.
    repeat (apply elem_of_cons in Hin as [[= -> ->]|Hin];
            [eexists; split; [reflexivity|eexists; reflexivity]|]).
    by apply elem_of_nil in Hin.
Defined.

(** X6, at the firm whose second entry names an unregistered bank. *)
Lemma post_messages_unknown_receiver_witness :
  ∃ h', _post_messages 0%nat sample_registry misaddressing_store = Raise KeyError h'
    ∧ (∀ l, h' !! l =
         (λ b, set_inbox (inbox b ++ addressed sample_registry l
                            [(("household", 1), ("m", hello))]) b)
         <$> misaddressing_store !! l)
    ∧ out_entries h' 0%nat =
        [(("household", 1), ("m", hello))]
        ++ (("bank", 9), ("m", old_greeting))
        :: [(("household", 1), ("quote_sell", quote_request))].
Proof.
  apply (post_messages_unknown_receiver 0%nat sample_registry misaddressing_store
           firm_misaddressing).
  - reflexivity.
  - reflexivity.
  - intros to env Hin.
    apply elem_of_cons in Hin as [[= -> ->]|Hin];
      [eexists; split; [reflexivity|eexists; reflexivity]|].
    by apply elem_of_nil in Hin.
  - reflexivity.
Defined.

(** X7, at the firm with four workers. *)
Lemma partitioned_batches_witness :
  ∃ b,
    mbind (send_all_multiprocessing sample_hash parallel_entries)
          (λ _, _post_messages_multiprocessing (processes firm_parallel)) firm_parallel
      = Ret (OutBuckets b) (set_out (OutBuckets ∅) firm_parallel)
    ∧ (∀ k, default [] (b !! k) =
            in_partition sample_hash (processes firm_parallel) k parallel_entries)
    ∧ (∀ k, is_Some (b !! k) → 0 ≤ k < processes firm_parallel).
Proof.
  apply (partitioned_batches sample_hash parallel_entries firm_parallel).
  - reflexivity.
  - reflexivity.
Defined.

(** X8, at the household whose pass raises. *)
Lemma clearing_keeps_reserved_unfiled_witness :
  match _do_message_clearing sample_receive_accept sample_silent sample_silent
          sample_silent household_confused with
  | Ret _ a' | Raise _ a' =>
      no_reserved_queue a'
      ∧ ∀ T g, reserved T = true →
               get_messages nat sample_shuffle T (a', g) = Ret [] (a', g)
  end.
Proof.
  apply (clearing_keeps_reserved_unfiled sample_receive_accept sample_silent
           sample_silent sample_silent nat sample_shuffle household_confused).
  intros T _. apply lookup_empty.
Defined.

(** X9, at the household with two greetings in its inbox. *)
Lemma clearing_generic_inbox_witness :
  ∃ a', _do_message_clearing sample_receive_accept sample_silent sample_silent
          sample_silent household_greeted = Ret tt a'
    ∧ inbox a' = []
    ∧ market a' = market household_greeted ∧ out a' = out household_greeted
    ∧ ∀ T, default [] (msgs a' !! T) =
           default [] (msgs household_greeted !! T) ++ of_kind T (inbox household_greeted).
Proof.
  apply (clearing_generic_inbox sample_receive_accept sample_silent sample_silent
           sample_silent household_greeted).
  intros typ msg Hin.
  repeat (apply elem_of_cons in Hin as [[= -> ->]|Hin]; [reflexivity|]).
  by apply elem_of_nil in Hin.
Defined.

(** X10, at the household receiving a [Message] under ['_ac']. *)
Lemma attribute_kind_message_raises_witness :
  dispatch sample_receive_accept sample_silent sample_silent sample_silent
    ("_ac", PMessage gift_message) household
  = Raise AttributeError household.
Proof.
  apply (attribute_kind_message_raises sample_receive_accept sample_silent
           sample_silent sample_silent "_ac" gift_message household).
  apply (bool_decide_unpack _). vm_compute. reflexivity.
Defined.

(** X11, at the household: a cancel and a gift sent through [send]. *)
Lemma message_wraps_tuple_witness :
  (dispatch sample_receive_accept sample_silent sample_silent sample_silent
     ("!d", PMessage cancel_message) household_paying
   = dispatch sample_receive_accept sample_silent sample_silent sample_silent
       ("!d", PTuple [VStr "r"; VStr "BRD"; VInt 7]) household_paying
   ∧ dispatch sample_receive_accept sample_silent sample_silent sample_silent
       ("_g", PMessage cancel_message) household_paying
     = dispatch sample_receive_accept sample_silent sample_silent sample_silent
         ("_g", PTuple [VStr "r"; VStr "BRD"; VInt 7]) household_paying).
Proof.
  apply (message_wraps_tuple sample_receive_accept sample_silent sample_silent
           sample_silent cancel_message [VStr "r"; VStr "BRD"; VInt 7]
           household_paying).
  reflexivity.
Defined.

(** X12, at the household receiving a buy offer for bread. *)
Lemma open_offer_recorded_witness :
  ∃ a', dispatch sample_receive_accept sample_silent sample_silent sample_silent
          ("!b", POffer bread_offer) household = Ret tt a'
    ∧ table_get "BRD" 11 (open_offers_buy (market a')) = Some (POffer bread_offer)
    ∧ (∀ g j, (g, j) ≠ ("BRD", 11) →
         table_get g j (open_offers_buy (market a')) =
         table_get g j (open_offers_buy (market household)))
    ∧ open_offers_sell (market a') = open_offers_sell (market household)
    ∧ _check_for_lost_messages a' =
        Raise (Exception (if has_stale_offer (market a')
                          then stale_text (market a')
                          else open_offers_text (market a'))) a'.
Proof.
  apply (open_offer_recorded sample_receive_accept sample_silent sample_silent
           sample_silent true household (POffer bread_offer) "BRD" 11).
  - reflexivity.
  - reflexivity.
Defined.

(** X13, at the household receiving a gift of bread through [send]. *)
Lemma free_good_credits_witness :
  ∃ a', dispatch sample_receive_accept sample_silent sample_silent sample_silent
          ("_g", PMessage gift_message) household = Ret tt a'
    ∧ inventory (market a') !! "BRD" =
        Some (default 0 (inventory (market household) !! "BRD") + 4)
    ∧ (∀ g, g ≠ "BRD" →
         inventory (market a') !! g = inventory (market household) !! g)
    ∧ msgs a' = msgs household ∧ inbox a' = inbox household.
Proof.
  apply (free_good_credits sample_receive_accept sample_silent sample_silent
           sample_silent household (PMessage gift_message) "BRD" 4).
  - reflexivity.
  - reflexivity.
Defined.

(** X14, at the household, which has made no offer. *)
Lemma contract_accept_unknown_witness :
  dispatch sample_receive_accept sample_silent sample_silent sample_silent
    ("_ac", PContract bread_contract) household
  = Raise KeyError household.
Proof.
  apply (contract_accept_unknown sample_receive_accept sample_silent sample_silent
           sample_silent household (PContract bread_contract) 7).
  - reflexivity.
  - reflexivity.
Defined.

(** X15, at the household, the payer, which holds no contract: the
    bread is credited although the entry raises. *)
Lemma contract_event_unknown_witness :
  ∃ a', dispatch sample_receive_accept sample_silent sample_silent sample_silent
          ("_dp", PContract bread_contract) household = Raise KeyError a'
    ∧ inventory (market a') = credit "BRD" 5 (inventory (market household))
    ∧ (∀ g j, table_get g j (contracts_pay (market a')) =
              table_get g j (contracts_pay (market household)))
    ∧ (∀ g j, table_get g j (contracts_deliver (market a')) =
              table_get g j (contracts_deliver (market household))).
Proof.
  apply (contract_event_unknown sample_receive_accept sample_silent sample_silent
           sample_silent household (PContract bread_contract) bread_contract).
  - reflexivity.
  - reflexivity.
Defined.

(** X16, at the household, which holds no contract. *)
Lemma contract_cancel_unknown_witness :
  ∃ a', dispatch sample_receive_accept sample_silent sample_silent sample_silent
          ("!d", PTuple [VStr "r"; VStr "BRD"; VInt 7]) household = Raise KeyError a'
    ∧ (∀ g j, table_get g j (contracts_pay (market a')) =
              table_get g j (contracts_pay (market household)))
    ∧ (∀ g j, table_get g j (contracts_deliver (market a')) =
              table_get g j (contracts_deliver (market household))).
Proof.
  apply (contract_cancel_unknown sample_receive_accept sample_silent sample_silent
           sample_silent household (PTuple [VStr "r"; VStr "BRD"; VInt 7])
           true "BRD" 7).
  - reflexivity.
  - reflexivity.
  - reflexivity.
  - reflexivity.
Defined.


(** X18, at a fresh agent. *)
Lemma audit_returns_iff_witness :
  _check_for_lost_messages household = Ret tt household.
Proof.
  apply (proj1 (audit_returns_iff household)).
  repeat split; intros k v Hk; cbn in Hk; rewrite lookup_empty in Hk;
    discriminate Hk.
Defined.

(** X19, at the household in round 3 with an offer given in round 2. *)
Lemma audit_stale_offer_first_witness :
  _check_for_lost_messages household_waiting
  = Raise (Exception (stale_text (market household_waiting))) household_waiting.
Proof.
  apply (audit_stale_offer_first household_waiting 11 bread_offer).
  - reflexivity.
  - reflexivity.
Defined.

(** X20, at the household with two greetings in its inbox. *)
Lemma retrieval_settles_audit_witness :
  ∃ a1,
    _do_message_clearing sample_receive_accept sample_silent sample_silent
      sample_silent household_greeted = Ret tt a1
    ∧ (inbox household_greeted ≠ [] →
       _check_for_lost_messages a1 = Raise (Exception (unread_text (market a1))) a1)
    ∧ ∃ l a2 g',
        get_messages nat sample_shuffle "m" (a1, 0%nat) = Ret l (a2, g')
        ∧ l ≡ₚ (inbox household_greeted).*2
        ∧ _check_for_lost_messages a2 = Ret tt a2.
Proof.
  apply (retrieval_settles_audit sample_receive_accept sample_silent sample_silent
           sample_silent nat sample_shuffle sample_shuffle_perm "m"
           household_greeted 0%nat).
  - reflexivity.
  - vm_compute. reflexivity.
  - intros typ msg Hin.
    repeat (apply elem_of_cons in Hin as [[= -> ->]|Hin]; [reflexivity|]).
    by apply elem_of_nil in Hin.
Defined.

(** ** Counterexamples on the small economy *)

(** C3 as stated fails for an entry whose contract is not on file: the
    firm, which is not the payer and holds no contract, is credited
    5 * 2 of money, no round is logged anywhere, and [KeyError] is
    raised. *)
Lemma contract_event_not_on_file_counterexample :
  ∃ a',
    dispatch sample_receive_accept sample_silent sample_silent sample_silent
      ("_dp", PContract bread_contract) firm = Raise KeyError a'
    ∧ inventory (market firm) !! "money" = None
    ∧ inventory (market a') !! "money" = Some 10
    ∧ table_get "BRD" 7 (contracts_deliver (market a')) = None
    ∧ table_get "BRD" 7 (contracts_pay (market a')) = None.
Proof.
  eexists. split; [vm_compute; reflexivity|].
  repeat split; vm_compute; reflexivity.
Qed.

(** C6 as stated fails when the discriminator selects the track the
    contract is not in: the firm holds the bread contract in the deliver
    track, the entry says ['r'], [KeyError] is raised and the contract is
    still on file. *)
Lemma contract_cancel_other_track_counterexample :
  ∃ a',
    table_get "BRD" 7 (contracts_deliver (market firm_delivering)) = Some bread_contract
    ∧ dispatch sample_receive_accept sample_silent sample_silent sample_silent
        ("!d", PTuple [VStr "r"; VStr "BRD"; VInt 7]) firm_delivering
      = Raise KeyError a'
    ∧ table_get "BRD" 7 (contracts_deliver (market a')) = Some bread_contract.
Proof.
  eexists. split; [vm_compute; reflexivity|].
  split; vm_compute; reflexivity.
Qed.

(** C7 as stated fails across interpreters: the firm and the household
    run in workers whose hash seeds differ, both send to household 1
    with four workers, and the entries land in buckets 0 and 3. *)
Lemma partition_across_interpreters_counterexample :
  ∃ a1 a2 b1 b2,
    _send_multiprocessing (seeded_hash 0) ("household", 1) "m" hello firm_parallel
      = Ret tt a1
    ∧ _send_multiprocessing (seeded_hash 1) ("household", 1) "m" hello
        household_parallel = Ret tt a2
    ∧ out a1 = OutBuckets b1 ∧ out a2 = OutBuckets b2
    ∧ b1 !! 0 = Some [(("household", 1), ("m", hello))] ∧ b1 !! 3 = None
    ∧ b2 !! 3 = Some [(("household", 1), ("m", hello))] ∧ b2 !! 0 = None
    ∧ partition (seeded_hash 0) ("household", 1) 4
      ≠ partition (seeded_hash 1) ("household", 1) 4.
Proof.
  eexists _, _, _, _. split; [vm_compute; reflexivity|].
  split; [vm_compute; reflexivity|]. split; [reflexivity|]. split; [reflexivity|].
  repeat split; try (vm_compute; reflexivity).
  vm_compute. discriminate.
Qed.
